(** * Lightspeed token service: a shallow embedding and its properties

    The development follows [src/services/token-scheduler.ts], which holds
    the two classes [TokenScheduler] and [LightspeedTokenService].

    Modelling conventions.
    - A JavaScript string is a Rocq [string]; [text.substring(0, 20)] is
      [substring 0 20 text].  The UTF-8 encoder and decoder of the crypto
      streams are [list_byte_of_string] and [string_of_list_byte], which is
      exact for ASCII text (OAuth tokens, hexadecimal strings).
    - A [Date] is its number of milliseconds since the epoch, in [Z];
      [Date | null] is [option Z]; the invalid date is [InvalidDate].
      [setSeconds] works on local time, as the language specification
      has it: the [World] holds the offsets of the local time zone, and
      a time value outside the range of [Date] gives the invalid date.
      A number is an integer (seconds, minutes, milliseconds).
    - An [async] method is a computation in the monad [M]: it reads and
      writes the [World] (table rows, clock, entropy), may throw an [Exn],
      and emits [Event]s (console lines, HTTP exchanges, store writes) in
      program order.  One method call runs at one instant of the clock;
      time passes between calls.
    - [undefined] reaching a parameter typed [string] or [number] (types
      are erased at run time) is [None]. *)

From Stdlib Require Import String Ascii List ZArith NArith Lia Bool.
From Stdlib Require Import Strings.Byte.
Import ListNotations.
Open Scope string_scope.
Open Scope Z_scope.

(* ================================================================== *)
(** ** Buffers and hexadecimal text *)
(* ================================================================== *)

Module Buffer.

(** One hexadecimal digit, lower case, as [buf.toString("hex")] prints. *)
Definition hex_digit (n : N) : ascii :=
  match n with
  | 0 => "0" | 1 => "1" | 2 => "2" | 3 => "3" | 4 => "4"
  | 5 => "5" | 6 => "6" | 7 => "7" | 8 => "8" | 9 => "9"
  | 10 => "a" | 11 => "b" | 12 => "c" | 13 => "d" | 14 => "e"
  | _ => "f"
  end%N%char.

(** Value of a hexadecimal digit; both cases are read. *)
Definition hex_value (c : ascii) : option N :=
  let n := N_of_ascii c in
  if ((48 <=? n) && (n <=? 57))%N then Some (n - 48)%N
  else if ((97 <=? n) && (n <=? 102))%N then Some (n - 87)%N
  else if ((65 <=? n) && (n <=? 70))%N then Some (n - 55)%N
  else None.

Definition byte_hex (b : byte) : string :=
  let n := Byte.to_N b in
  String (hex_digit (n / 16)) (String (hex_digit (n mod 16)) EmptyString).

(** [buf.toString("hex")] *)
Fixpoint toString_hex (buf : list byte) : string :=
  match buf with
  | [] => EmptyString
  | b :: rest => byte_hex b ++ toString_hex rest
  end.

(** [Buffer.from(text, "hex")]: pairs of digits are decoded until the
    first pair that is not hexadecimal; a trailing single digit is
    dropped. *)
Fixpoint from_hex (text : string) : list byte :=
  match text with
  | String hi (String lo rest) =>
      match hex_value hi, hex_value lo with
      | Some h, Some l =>
          match Byte.of_N (16 * h + l) with
          | Some b => b :: from_hex rest
          | None => []
          end
      | _, _ => []
      end
  | _ => []
  end.

End Buffer.

(** [text.split(sep)] for a one-character separator: never empty. *)
Fixpoint split (sep : ascii) (text : string) : list string :=
  match text with
  | EmptyString => [EmptyString]
  | String c rest =>
      if Ascii.eqb c sep then EmptyString :: split sep rest
      else match split sep rest with
           | first :: others => String c first :: others
           | [] => [String c EmptyString]
           end
  end.

(** Characters removed by [/\s/g] (the ASCII ones). *)
Definition is_space (c : ascii) : bool :=
  let n := N_of_ascii c in
  ((n =? 32) || ((9 <=? n) && (n <=? 13)))%N.

(** [text.replace(/\s/g, "")] *)
Fixpoint remove_spaces (text : string) : string :=
  match text with
  | EmptyString => EmptyString
  | String c rest =>
      if is_space c then remove_spaces rest else String c (remove_spaces rest)
  end.

(** A string in a boolean position: [undefined] and [""] are falsy. *)
Definition truthy (v : option string) : bool :=
  match v with
  | Some text => negb (String.eqb text EmptyString)
  | None => false
  end.

(** A number in a boolean position: [undefined] and [0] are falsy. *)
Definition truthy_num (v : option Z) : bool :=
  match v with
  | Some n => negb (n =? 0)
  | None => false
  end.

(* ================================================================== *)
(** ** Data model *)
(* ================================================================== *)

(** A [Date] object. *)
Inductive JsDate :=
| Instant (ms : Z)
| InvalidDate.

(** [interface LightspeedToken]: a row of [lightspeed_tokens].  The two
    token columns hold what [encrypt] returned. *)
Record LightspeedToken := {
  id : Z;
  accessToken : string;
  refreshToken : string;
  expiresAt : option Z;
  updatedAt : Z
}.

(** [interface LightspeedTokenResponse], as it exists at run time: the
    parsed JSON object of the provider, where any field may be absent. *)
Record LightspeedTokenResponse := {
  access_token : option string;
  refresh_token : option string;
  expires_in : option Z
}.

(** [interface TokenStatus] *)
Module TokenStatus.
Record t := {
  isValid : bool;
  expiresAt : option Z;
  expiresIn : Z;
  needsRefresh : bool;
  lastUpdated : Z
}.
End TokenStatus.

(** The JSON body posted to the token endpoint. *)
Record TokenRequest := {
  grant_type : string;
  client_id : string;
  client_secret : string;
  code : option string;
  sent_refresh_token : option string
}.

(** What [await fetch(...)] gives: a rejection, or a response with its
    status, its body as text ([response.text()]) and the body parsed as a
    JSON object ([response.json()], [None] when that throws). *)
Inductive FetchResult :=
| NetworkFailure (reason : string)
| HttpResponse (status : Z) (text : string) (json : option LightspeedTokenResponse).

(** [response.ok] *)
Definition ok (status : Z) : bool := (200 <=? status) && (status <=? 299).

(** Exceptions. *)
Inductive Exn :=
| Error (message : string)
| InvalidKeyLength (got : nat)
| CryptoError (message : string)
| TypeError (message : string)
| RangeError (message : string)
| PrismaError (message : string)
| JsonError.

(** One argument of a console call; a template literal is the list of
    its pieces. *)
#[warnings="-register-all"]
Inductive Arg :=
| Text (s : string)
| Num (n : option Z)
| Iso (d : Z)
| Undefined
| Caught (e : Exn)
| Json (raw : LightspeedTokenResponse)
| Body (request : TokenRequest)
| Template (pieces : list Arg).

Inductive StoreWrite :=
| Created (row : LightspeedToken)
| Updated (row : LightspeedToken)
| DeletedAll.

(** What a computation does that is visible outside it. *)
Inductive Event :=
| console_log (args : list Arg)
| console_error (args : list Arg)
| Posted (request : TokenRequest) (response : FetchResult)
| Wrote (w : StoreWrite).

(** The mutable surroundings of the code: the table, the clock, the
    local time zone of the process, the bytes [crypto.randomBytes] hands
    out, of which [drawn] are used up, and the one mutable field of the
    scheduler object.  [LocalTZA t true] is the offset of local time
    from UTC, in milliseconds, at the instant [t]; [LocalTZA t false] is
    the offset at the local time [t] (the two differ around a change of
    the offset). *)
Record World := {
  table : list LightspeedToken;
  clock : Z;
  LocalTZA : Z -> bool -> Z;
  entropy : nat -> byte;
  drawn : nat;
  lastTokenCheckHadTokens : bool
}.

Definition with_table (w : World) (rows : list LightspeedToken) : World :=
  {| table := rows; clock := clock w; LocalTZA := LocalTZA w;
     entropy := entropy w; drawn := drawn w;
     lastTokenCheckHadTokens := lastTokenCheckHadTokens w |}.

Definition with_clock (w : World) (now : Z) : World :=
  {| table := table w; clock := now; LocalTZA := LocalTZA w;
     entropy := entropy w; drawn := drawn w;
     lastTokenCheckHadTokens := lastTokenCheckHadTokens w |}.

Definition with_drawn (w : World) (n : nat) : World :=
  {| table := table w; clock := clock w; LocalTZA := LocalTZA w;
     entropy := entropy w; drawn := n;
     lastTokenCheckHadTokens := lastTokenCheckHadTokens w |}.

Definition with_lastTokenCheckHadTokens (w : World) (b : bool) : World :=
  {| table := table w; clock := clock w; LocalTZA := LocalTZA w;
     entropy := entropy w; drawn := drawn w;
     lastTokenCheckHadTokens := b |}.

(** [process.env] and the network, as one call sees them. *)
Record Host := {
  TOKEN_ENCRYPTION_KEY : option string;
  LIGHTSPEED_CLIENT_ID : option string;
  LIGHTSPEED_CLIENT_SECRET : option string;
  fetch : TokenRequest -> FetchResult
}.

(** The block cipher of the crypto library in CBC mode with padding:
    [cbc_encrypt key iv plaintext] and its inverse, which fails on a
    payload that is not a padded whole number of blocks. *)
Record CryptoLibrary := {
  cbc_encrypt : list byte -> list byte -> list byte -> list byte;
  cbc_decrypt : list byte -> list byte -> list byte -> option (list byte)
}.

(* ================================================================== *)
(** ** Computations: state, exceptions and emitted events *)
(* ================================================================== *)

Inductive Result (A : Type) :=
| Return (a : A)
| Throw (e : Exn).
Arguments Return {A} a.
Arguments Throw {A} e.

Record Outcome (A : Type) := Ran {
  result : Result A;
  after : World;
  emitted : list Event
}.
Arguments Ran {A} result after emitted.
Arguments result {A} o.
Arguments after {A} o.
Arguments emitted {A} o.

Definition M (A : Type) : Type := World -> Outcome A.

Definition ret {A} (a : A) : M A := fun w => Ran (Return a) w [].

Definition throw {A} (e : Exn) : M A := fun w => Ran (Throw e) w [].

Definition bind {A B} (m : M A) (k : A -> M B) : M B :=
  fun w =>
    match m w with
    | Ran (Return a) w1 events1 =>
        match k a w1 with
        | Ran r w2 events2 => Ran r w2 (events1 ++ events2)
        end
    | Ran (Throw e) w1 events1 => Ran (Throw e) w1 events1
    end.

(** [try { body } catch (error) { handler }]: what the body did before it
    threw stays done. *)
Definition try_catch {A} (body : M A) (handler : Exn -> M A) : M A :=
  fun w =>
    match body w with
    | Ran (Return a) w1 events1 => Ran (Return a) w1 events1
    | Ran (Throw e) w1 events1 =>
        match handler e w1 with
        | Ran r w2 events2 => Ran r w2 (events1 ++ events2)
        end
    end.

Definition lift {A} (r : Result A) : M A := fun w => Ran r w [].

Definition emit (e : Event) : M unit := fun w => Ran (Return tt) w [e].

Declare Scope m_scope.
Delimit Scope m_scope with m.
Notation "x <- m ;; k" := (bind m (fun x => k))
  (at level 61, m at next level, right associativity) : m_scope.
Notation "m ;; k" := (bind m (fun _ => k))
  (at level 61, right associativity) : m_scope.
Open Scope m_scope.

Definition log (args : list Arg) : M unit := emit (console_log args).
Definition error (args : list Arg) : M unit := emit (console_error args).

(** [new Date()] *)
Definition new_Date : M Z := fun w => Ran (Return (clock w)) w [].

(** [crypto.randomBytes(n)] *)
Definition randomBytes (n : nat) : M (list byte) :=
  fun w =>
    Ran (Return (map (entropy w) (seq (drawn w) n)))
        (with_drawn w (drawn w + n)%nat) [].

(* ================================================================== *)
(** ** The persistence driver ([db.lightspeedTokens])

    The generated client is not among the sources; its four calls are
    modelled from the persistence boundary the specification describes
    (insert-one, find-first, update-by-id, delete-all over one table)
    and from the table's declaration. *)
(* ================================================================== *)

Module db.

(** Modelled from the spec: [findFirst] of the generated client, which
    is missing: "returns the current record, or none if no record
    exists".  No order is asked for; the first row in storage order is
    given. *)
Definition findFirst : M (option LightspeedToken) :=
  fun w => Ran (Return (hd_error (table w))) w [].

(** Modelled from the spec: [create] of the generated client, which is
    missing: the "insert-one" of the persistence boundary.  The row is
    stored with the fields it is given, the key among them (the service
    passes [id: 0]); the table is declared with [PRIMARY KEY ("id")], so
    a row whose key the table already holds is refused.  A [Date] that
    is invalid is refused before anything is sent to the table. *)
Definition create (key : Z) (access refresh : string) (expires : JsDate) (updated : Z)
  : M LightspeedToken :=
  fun w =>
    match expires with
    | InvalidDate => Ran (Throw (PrismaError "Provided Date object is invalid")) w []
    | Instant e =>
        if existsb (fun row => id row =? key) (table w)
        then Ran (Throw (PrismaError "Unique constraint failed on the fields: (`id`)")) w []
        else
          let row := {| id := key; accessToken := access;
                        refreshToken := refresh; expiresAt := Some e;
                        updatedAt := updated |} in
          Ran (Return row) (with_table w (table w ++ [row])) [Wrote (Created row)]
    end.

(** The rows with the first one of key [key] replaced by [f] of it. *)
Fixpoint rewrite_row (key : Z) (f : LightspeedToken -> LightspeedToken)
  (rows : list LightspeedToken) : option (LightspeedToken * list LightspeedToken) :=
  match rows with
  | [] => None
  | row :: rest =>
      if id row =? key then Some (f row, f row :: rest)
      else match rewrite_row key f rest with
           | Some (new, rest') => Some (new, row :: rest')
           | None => None
           end
  end.

(** Modelled from the spec: [update] of the generated client, which is
    missing: it "overwrites the identified record's token fields and
    updatedAt", where the row stands, and throws when no row has the
    key. *)
Definition update (key : Z) (access refresh : string) (expires : JsDate)
  (updated : Z) : M unit :=
  fun w =>
    match expires with
    | InvalidDate => Ran (Throw (PrismaError "Provided Date object is invalid")) w []
    | Instant e =>
        let f row := {| id := id row; accessToken := access;
                        refreshToken := refresh; expiresAt := Some e;
                        updatedAt := updated |} in
        match rewrite_row key f (table w) with
        | Some (new, rows) => Ran (Return tt) (with_table w rows) [Wrote (Updated new)]
        | None => Ran (Throw (PrismaError "Record to update not found")) w []
        end
    end.

(** Modelled from the spec: [deleteMany] of the generated client, which
    is missing: "deletes all records unconditionally". *)
Definition deleteMany : M unit :=
  fun w => Ran (Return tt) (with_table w []) [Wrote DeletedAll].

End db.

(* ================================================================== *)
(** ** [class LightspeedTokenService] *)
(* ================================================================== *)

Record LightspeedTokenService := {
  REFRESH_BUFFER_MINUTES : Z;
  ENCRYPTION_KEY : option string;
  ALGORITHM : string
}.

(** The field initialisers of the class, run by [new]. *)
Definition new_LightspeedTokenService (host : Host) : LightspeedTokenService :=
  {| REFRESH_BUFFER_MINUTES := 10;
     ENCRYPTION_KEY := TOKEN_ENCRYPTION_KEY host;
     ALGORITHM := "aes-256-cbc" |}.

(** A value used as an object ([v.substring], [v.toISOString]) must not
    be [undefined]. *)
Definition defined {A} (v : option A) : M A :=
  match v with
  | Some a => ret a
  | None => throw (TypeError "undefined is not an object")
  end.

(** [text.substring(0, 20) + "..."] *)
Definition first20 (text : string) : string := substring 0 20 text ++ "...".

(** [LocalTime(t)] and [UTC(t)] of the language specification. *)
Definition LocalTime (w : World) (t : Z) : Z := t + LocalTZA w t true.

Definition UTC (w : World) (t : Z) : Z := t - LocalTZA w t false.

(** [TimeClip(time)]: a time value is at most 8.64e15 milliseconds from
    the epoch. *)
Definition TimeClip (time : Z) : JsDate :=
  if Z.abs time <=? 8640000000000000 then Instant time else InvalidDate.

(** [date.setSeconds(date.getSeconds() + seconds)]: the seconds are added
    to the local time of [date], and the result is taken back to UTC and
    clipped; adding [undefined] gives [NaN] and an invalid date. *)
Definition setSeconds_plus (date : Z) (seconds : option Z) : M JsDate :=
  fun w =>
    Ran (Return match seconds with
                | Some n => TimeClip (UTC w (LocalTime w date + 1000 * n))
                | None => InvalidDate
                end) w [].

(** [date.toISOString()]; the text itself is not modelled, the instant
    printed is. *)
Definition toISOString (date : JsDate) : M Z :=
  match date with
  | Instant d => ret d
  | InvalidDate => throw (RangeError "Invalid time value")
  end.

Section Service.

Variable crypto : CryptoLibrary.
Variable host : Host.

(** [crypto.createCipheriv(algorithm, key, iv)] followed by [update] and
    [final]: the library refuses an unknown algorithm, then a vector that
    is not 16 bytes, then a key that is not 32. *)
Definition createCipheriv (algorithm : string) (key iv : list byte)
  : Result (list byte -> list byte) :=
  if negb (String.eqb algorithm "aes-256-cbc") then Throw (CryptoError "Unknown cipher")
  else if negb (length iv =? 16)%nat then Throw (CryptoError "Invalid initialization vector")
  else if negb (length key =? 32)%nat then Throw (CryptoError "Invalid key length")
  else Return (cbc_encrypt crypto key iv).

Definition createDecipheriv (algorithm : string) (key iv : list byte)
  : Result (list byte -> Result (list byte)) :=
  if negb (String.eqb algorithm "aes-256-cbc") then Throw (CryptoError "Unknown cipher")
  else if negb (length iv =? 16)%nat then Throw (CryptoError "Invalid initialization vector")
  else if negb (length key =? 32)%nat then Throw (CryptoError "Invalid key length")
  else Return (fun payload =>
                 match cbc_decrypt crypto key iv payload with
                 | Some plain => Return plain
                 | None => Throw (CryptoError "bad decrypt")
                 end).

(** [await fetch(url, { method: "POST", body: JSON.stringify(body) })] *)
Definition post (body : TokenRequest) : M (Z * string * option LightspeedTokenResponse) :=
  fun w =>
    match fetch host body with
    | NetworkFailure reason =>
        Ran (Throw (TypeError reason)) w [Posted body (NetworkFailure reason)]
    | HttpResponse status text json =>
        Ran (Return (status, text, json)) w [Posted body (HttpResponse status text json)]
    end.

(** [await response.json()] *)
Definition response_json (json : option LightspeedTokenResponse) : M LightspeedTokenResponse :=
  match json with
  | Some data => ret data
  | None => throw JsonError
  end.

Definition getLatestTokens : M (option LightspeedToken) :=
  result <- db.findFirst ;;
  ret result.

Definition needsRefresh (this : LightspeedTokenService) (tokens : LightspeedToken) : M bool :=
  match expiresAt tokens with
  | None => ret true
  | Some expires =>
      now <- new_Date ;;
      let bufferTime := expires - REFRESH_BUFFER_MINUTES this * 60 * 1000 in
      ret (bufferTime <=? now)
  end.

Definition encrypt (this : LightspeedTokenService) (text : string) : M string :=
  match ENCRYPTION_KEY this with
  | None => throw (Error "TOKEN_ENCRYPTION_KEY environment variable is required")
  | Some key =>
      if negb (truthy (Some key))
      then throw (Error "TOKEN_ENCRYPTION_KEY environment variable is required")
      else
        iv <- randomBytes 16 ;;
        let keyBuffer := Buffer.from_hex key in
        if negb (length keyBuffer =? 32)%nat
        then throw (InvalidKeyLength (length keyBuffer))
        else
          cipher <- lift (createCipheriv (ALGORITHM this) keyBuffer iv) ;;
          let encrypted := Buffer.toString_hex (cipher (list_byte_of_string text)) in
          ret (Buffer.toString_hex iv ++ ":" ++ encrypted)
  end.

Definition decrypt (this : LightspeedTokenService) (encryptedText : string) : Result string :=
  match ENCRYPTION_KEY this with
  | None => Throw (Error "TOKEN_ENCRYPTION_KEY environment variable is required")
  | Some key =>
      if negb (truthy (Some key))
      then Throw (Error "TOKEN_ENCRYPTION_KEY environment variable is required")
      else
        let parts := split ":" encryptedText in
        let ivHex := hd EmptyString parts in
        let encrypted := nth_error parts 1 in
        let iv := Buffer.from_hex ivHex in
        let keyBuffer := Buffer.from_hex key in
        match createDecipheriv (ALGORITHM this) keyBuffer iv with
        | Throw e => Throw e
        | Return decipher =>
            match encrypted with
            | None => Throw (TypeError "The data argument must be of type string")
            | Some payload =>
                match decipher (Buffer.from_hex payload) with
                | Throw e => Throw e
                | Return plain => Return (string_of_list_byte plain)
                end
            end
        end
  end.

Definition insertTokens (this : LightspeedTokenService)
  (accessToken refreshToken : option string) (expiresIn : option Z)
  : M LightspeedToken :=
  log [Text "🔐 Received tokens for storage:"] ;;
  access <- defined accessToken ;;
  log [Text "  Access Token (first 20 chars):"; Text (first20 access)] ;;
  refresh <- defined refreshToken ;;
  log [Text "  Refresh Token (first 20 chars):"; Text (first20 refresh)] ;;
  log [Text "  Expires In:"; Num expiresIn; Text "seconds"] ;;
  created <- new_Date ;;
  expires <- setSeconds_plus created expiresIn ;;
  try_catch
    (encryptedAccess <- encrypt this access ;;
     encryptedRefresh <- encrypt this refresh ;;
     updated <- new_Date ;;
     result <- db.create 0 encryptedAccess encryptedRefresh expires updated ;;
     log [Text "✅ New tokens inserted successfully"] ;;
     log [Text "  Database ID:"; Num (Some (id result))] ;;
     iso <- toISOString expires ;;
     log [Text "  Expires At:"; Iso iso] ;;
     ret result)
    (fun e =>
       error [Text "❌ Failed to insert tokens to database:"; Caught e] ;;
       log [Text "🚨 RECOVERY INFO - Save these tokens:"] ;;
       log [Text ("  LIGHTSPEED_REFRESH_TOKEN=" ++ refresh)] ;;
       log [Text "  Access token was:"; Text access] ;;
       throw e).

Definition updateTokens (this : LightspeedTokenService) (key : Z)
  (accessToken refreshToken : option string) (expiresIn : option Z)
  : M unit :=
  log [Text "🔄 Updating tokens in database:"] ;;
  log [Text "  Record ID:"; Num (Some key)] ;;
  access <- defined accessToken ;;
  log [Text "  Access Token (first 20 chars):"; Text (first20 access)] ;;
  refresh <- defined refreshToken ;;
  log [Text "  Refresh Token (first 20 chars):"; Text (first20 refresh)] ;;
  log [Text "  Expires In:"; Num expiresIn; Text "seconds"] ;;
  created <- new_Date ;;
  expires <- setSeconds_plus created expiresIn ;;
  try_catch
    (encryptedAccess <- encrypt this access ;;
     encryptedRefresh <- encrypt this refresh ;;
     updated <- new_Date ;;
     db.update key encryptedAccess encryptedRefresh expires updated ;;
     log [Text "✅ Tokens updated successfully"] ;;
     iso <- toISOString expires ;;
     log [Text "  Expires At:"; Iso iso])
    (fun e =>
       error [Text "❌ Failed to update tokens in database:"; Caught e] ;;
       log [Text "🚨 RECOVERY INFO - Save these tokens:"] ;;
       log [Text ("  LIGHTSPEED_REFRESH_TOKEN=" ++ refresh)] ;;
       log [Text "  Access token was:"; Text access] ;;
       throw e).

Definition requestTokenRefresh (refreshToken : string)
  : M (option LightspeedTokenResponse) :=
  let clientId := LIGHTSPEED_CLIENT_ID host in
  let clientSecret := LIGHTSPEED_CLIENT_SECRET host in
  match clientId, clientSecret with
  | Some cid, Some secret =>
      if negb (truthy clientId) || negb (truthy clientSecret)
      then throw (Error "Lightspeed client credentials not configured")
      else
        log [Text "🔄 Requesting token refresh from Lightspeed..."] ;;
        log [Text "  Using refresh token (first 20 chars):"; Text (first20 refreshToken)] ;;
        try_catch
          (response <- post {| grant_type := "refresh_token";
                               client_id := cid;
                               client_secret := secret;
                               code := None;
                               sent_refresh_token := Some refreshToken |} ;;
           let '(status, text, json) := response in
           if negb (ok status)
           then
             error [Text "❌ Token refresh failed:"; Num (Some status); Text text] ;;
             log [Text "🚨 The refresh token that failed was:"; Text refreshToken] ;;
             ret None
           else
             data <- response_json json ;;
             (if truthy (access_token data) && truthy (refresh_token data)
              then
                log [Text "✅ Tokens refreshed successfully from Lightspeed"] ;;
                access <- defined (access_token data) ;;
                log [Text "  New Access Token (first 20):"; Text (first20 access)] ;;
                refresh <- defined (refresh_token data) ;;
                log [Text "  New Refresh Token (first 20):"; Text (first20 refresh)]
              else
                error [Text "❌ Invalid response - missing tokens:"; Json data]) ;;
             ret (Some data))
          (fun e =>
             error [Text "❌ Network error during token refresh:"; Caught e] ;;
             log [Text "🚨 The refresh token that caused the error was:"; Text refreshToken] ;;
             ret None)
  | _, _ => throw (Error "Lightspeed client credentials not configured")
  end.

Definition exchangeAuthCodeForTokens (authCode : string)
  : M (option LightspeedTokenResponse) :=
  let cleanAuthCode := remove_spaces authCode in
  let clientId := LIGHTSPEED_CLIENT_ID host in
  let clientSecret := LIGHTSPEED_CLIENT_SECRET host in
  match clientId, clientSecret with
  | Some cid, Some secret =>
      if negb (truthy clientId) || negb (truthy clientSecret)
      then throw (Error "LIGHTSPEED_CLIENT_ID and LIGHTSPEED_CLIENT_SECRET environment variables are required")
      else
        let requestBody := {| grant_type := "authorization_code";
                              client_id := cid;
                              client_secret := secret;
                              code := Some cleanAuthCode;
                              sent_refresh_token := None |} in
        log [Text "🌐 Making token exchange request to Lightspeed..."] ;;
        log [Text "  Client ID:"; Text cid] ;;
        log [Text "  Request body:"; Body requestBody] ;;
        try_catch
          (response <- post requestBody ;;
           let '(status, text, json) := response in
           if negb (ok status)
           then
             error [Text "❌ Token exchange failed:"; Num (Some status); Text text] ;;
             ret None
           else
             data <- response_json json ;;
             if truthy (access_token data) && truthy (refresh_token data)
             then
               log [Text "✅ Token exchange successful"] ;;
               ret (Some {| access_token := access_token data;
                            refresh_token := refresh_token data;
                            expires_in :=
                              if truthy_num (expires_in data) then expires_in data
                              else Some 3600 |})
             else
               error [Text "❌ Invalid response - missing tokens:"; Json data] ;;
               ret None)
          (fun e =>
             error [Text "❌ Network error during token exchange:"; Caught e] ;;
             ret None)
  | _, _ => throw (Error "LIGHTSPEED_CLIENT_ID and LIGHTSPEED_CLIENT_SECRET environment variables are required")
  end.

Definition refreshTokens (this : LightspeedTokenService) (refreshToken : string)
  : M (option LightspeedToken) :=
  try_catch
    (response <- requestTokenRefresh refreshToken ;;
     match response with
     | None => ret None
     | Some response =>
         latestTokens <- getLatestTokens ;;
         match latestTokens with
         | None =>
             inserted <- insertTokens this (access_token response)
                           (refresh_token response) (expires_in response) ;;
             ret (Some inserted)
         | Some latest =>
             updateTokens this (id latest) (access_token response)
               (refresh_token response) (expires_in response) ;;
             getLatestTokens
         end
     end)
    (fun e =>
       error [Text "Error refreshing Lightspeed tokens:"; Caught e] ;;
       ret None).

Definition getValidAccessToken (this : LightspeedTokenService) : M (option string) :=
  tokens <- getLatestTokens ;;
  match tokens with
  | None =>
      error [Text "No Lightspeed tokens found"] ;;
      ret None
  | Some tokens =>
      stale <- needsRefresh this tokens ;;
      if stale then
        log [Text "Access token needs refresh, attempting to refresh..."] ;;
        plain <- lift (decrypt this (refreshToken tokens)) ;;
        refreshedTokens <- refreshTokens this plain ;;
        match refreshedTokens with
        | Some refreshed =>
            access <- lift (decrypt this (accessToken refreshed)) ;;
            ret (Some access)
        | None =>
            error [Text "Failed to refresh tokens"] ;;
            ret None
        end
      else
        access <- lift (decrypt this (accessToken tokens)) ;;
        ret (Some access)
  end.

Definition getTokenStatus (this : LightspeedTokenService) : M (option TokenStatus.t) :=
  tokens <- getLatestTokens ;;
  match tokens with
  | None => ret None
  | Some tokens =>
      now <- new_Date ;;
      let expires := expiresAt tokens in
      let valid := match expires with Some e => now <? e | None => false end in
      let minutes :=
        match expires with
        | Some e => Z.max 0 ((e - now) / (1000 * 60))
        | None => 0
        end in
      stale <- needsRefresh this tokens ;;
      ret (Some {| TokenStatus.isValid := valid;
                   TokenStatus.expiresAt := expires;
                   TokenStatus.expiresIn := minutes;
                   TokenStatus.needsRefresh := stale;
                   TokenStatus.lastUpdated := updatedAt tokens |})
  end.

Definition validateTokens (this : LightspeedTokenService) : M bool :=
  tokens <- getLatestTokens ;;
  match tokens with
  | None => ret false
  | Some tokens =>
      if negb (truthy (Some (refreshToken tokens))) then ret false
      else
        access <- getValidAccessToken this ;;
        ret (truthy access)
  end.

Definition clearTokens : M unit := db.deleteMany.

Definition loginWithAuthCode (this : LightspeedTokenService) (authCode : string)
  : M (option LightspeedToken) :=
  try_catch
    (tokenResponse <- exchangeAuthCodeForTokens authCode ;;
     match tokenResponse with
     | None => ret None
     | Some response =>
         storedTokens <- insertTokens this (access_token response)
                           (refresh_token response) (expires_in response) ;;
         log [Text "✅ Login completed successfully"] ;;
         ret (Some storedTokens)
     end)
    (fun e =>
       error [Text "❌ Login flow failed:"; Caught e] ;;
       ret None).

Definition getTimeUntilExpiry (tokens : LightspeedToken) : M Z :=
  match expiresAt tokens with
  | None => ret 0
  | Some expires =>
      now <- new_Date ;;
      ret (Z.max 0 ((expires - now) / (1000 * 60)))
  end.

Definition expiresWithin (tokens : LightspeedToken) (minutes : Z) : M bool :=
  left <- getTimeUntilExpiry tokens ;;
  ret (left <=? minutes).

(** [!text?.trim()]: nothing but white space. *)
Definition blank (text : string) : bool :=
  String.eqb (remove_spaces text) EmptyString.

Definition setTokensManually (this : LightspeedTokenService)
  (accessToken refreshToken : string) (expiresInMinutes : option Z)
  : M LightspeedToken :=
  if blank accessToken || blank refreshToken
  then throw (Error "Both access token and refresh token are required")
  else
    let minutes := if truthy_num expiresInMinutes then expiresInMinutes else Some 60 in
    let expiresIn := option_map (fun m => m * 60) minutes in
    log [Text "🔐 Storing manually provided tokens..."] ;;
    log [Text ("   Access Token (first 20 chars): " ++ first20 accessToken)] ;;
    log [Text ("   Refresh Token (first 20 chars): " ++ first20 refreshToken)] ;;
    log [Template [Text "   Expires in: "; Num minutes; Text " minutes"]] ;;
    insertTokens this (Some accessToken) (Some refreshToken) expiresIn.

End Service.

(* ================================================================== *)
(** ** [class TokenScheduler] (the two tasks; the cron handles are not
    modelled).  [this.tokenService] is built by the constructor;
    [this.lastTokenCheckHadTokens] lives in the [World]. *)
(* ================================================================== *)

Record TokenScheduler := {
  tokenService : LightspeedTokenService
}.

Definition new_TokenScheduler (host : Host) : TokenScheduler :=
  {| tokenService := new_LightspeedTokenService host |}.

Definition get_lastTokenCheckHadTokens : M bool :=
  fun w => Ran (Return (lastTokenCheckHadTokens w)) w [].

Definition set_lastTokenCheckHadTokens (b : bool) : M unit :=
  fun w => Ran (Return tt) (with_lastTokenCheckHadTokens w b) [].

Section Scheduler.

Variable crypto : CryptoLibrary.
Variable host : Host.

Definition checkAndRefreshTokens (this : TokenScheduler) : M unit :=
  try_catch
    (tokens <- getLatestTokens ;;
     match tokens with
     | None =>
         had <- get_lastTokenCheckHadTokens ;;
         if had then
           log [Text "🔍 Tokens were removed - service is now waiting for new tokens"] ;;
           log [Text "💡 To reconfigure tokens, use: bun run tokens login <authorization_code>"] ;;
           set_lastTokenCheckHadTokens false
         else ret tt
     | Some tokens =>
         had <- get_lastTokenCheckHadTokens ;;
         (if negb had then
            log [Text "🎉 Tokens detected! Automatic token management is now active"] ;;
            set_lastTokenCheckHadTokens true
          else ret tt) ;;
         stale <- needsRefresh (tokenService this) tokens ;;
         if stale then
           log [Text "🔄 Tokens need refresh - attempting automatic refresh..."] ;;
           refreshedTokens <- refreshTokens crypto host (tokenService this)
                                (refreshToken tokens) ;;
           match refreshedTokens with
           | Some _ =>
               log [Text "✅ Tokens automatically refreshed successfully"] ;;
               status <- getTokenStatus (tokenService this) ;;
               match status with
               | Some status =>
                   log [Template [Text "📅 New expiry: ";
                                  match TokenStatus.expiresAt status with
                                  | Some e => Iso e
                                  | None => Undefined
                                  end]] ;;
                   log [Template [Text "⏱️  Expires in: ";
                                  Num (Some (TokenStatus.expiresIn status));
                                  Text " minutes"]]
               | None => ret tt
               end
           | None =>
               error [Text "❌ Automatic token refresh failed"] ;;
               log [Text "🚨 Manual intervention may be required"]
           end
         else
           log [Text "✅ Tokens are still valid - no refresh needed"]
     end)
    (fun e => error [Text "❌ Error during scheduled token refresh:"; Caught e]).

Definition performHealthCheck (this : TokenScheduler) : M unit :=
  try_catch
    (status <- getTokenStatus (tokenService this) ;;
     match status with
     | None =>
         log [Text "🏥 Health Check: No tokens configured"] ;;
         log [Text "🚨 ACTION REQUIRED: No tokens found in the system"] ;;
         log [Text "📋 To set up tokens (choose one option):"] ;;
         log [Text "   Option 1 - OAuth flow:"] ;;
         log [Text "     1. Get authorization code from Lightspeed OAuth"] ;;
         log [Text "     2. Run: bun run tokens login <authorization_code>"] ;;
         log [Text "   Option 2 - Manual entry:"] ;;
         log [Text "     1. Get access and refresh tokens from another source"] ;;
         log [Text "     2. Run: bun run tokens set <access_token> <refresh_token>"] ;;
         log [Text "   The service will then start managing tokens automatically"] ;;
         log [Text ""] ;;
         log [Text "💡 Until tokens are configured, the scheduler will continue checking every hour"]
     | Some status =>
         log [Text "🏥 Health Check Results:"] ;;
         log [Template [Text "   Status: ";
                        Text (if TokenStatus.isValid status then "✅ Valid" else "❌ Invalid")]] ;;
         log [Template [Text "   Expires in: "; Num (Some (TokenStatus.expiresIn status));
                        Text " minutes"]] ;;
         log [Template [Text "   Needs refresh: ";
                        Text (if TokenStatus.needsRefresh status then "⚠️ Yes" else "✅ No")]] ;;
         log [Template [Text "   Last updated: "; Iso (TokenStatus.lastUpdated status)]] ;;
         (if (TokenStatus.expiresIn status <=? 30) && (0 <? TokenStatus.expiresIn status)
          then log [Text "🚨 WARNING: Tokens expire in less than 30 minutes!"]
          else ret tt) ;;
         (if negb (TokenStatus.isValid status)
          then log [Text "🚨 ALERT: Tokens are expired! Automatic refresh should handle this."]
          else ret tt)
     end)
    (fun e => error [Text "❌ Error during health check:"; Caught e]).

Definition runOneTimeRefreshCheck (this : TokenScheduler) : M unit :=
  log [Text "🔍 Running one-time token refresh check..."] ;;
  checkAndRefreshTokens this.

Definition runOneTimeHealthCheck (this : TokenScheduler) : M unit :=
  log [Text "🏥 Running one-time health check..."] ;;
  performHealthCheck this.

End Scheduler.

(* ================================================================== *)
(** ** The operations of the system, as a transition system *)
(* ================================================================== *)

(** One operation an operator, a caller or the scheduler can run.  The
    host of each step is its own: the provider may answer differently
    every time. *)
Inductive Operation :=
| Login (authCode : string)
| SetManually (accessToken refreshToken : string) (expiresInMinutes : option Z)
| Refresh (refreshToken : string)
| GetValidAccessToken
| SchedulerTick
| HealthCheck
| Status
| Latest
| Clear
| Elapse (ms : N).

Definition forget {A} (m : M A) : M unit := bind m (fun _ => ret tt).

Definition run (crypto : CryptoLibrary) (host : Host) (op : Operation) : M unit :=
  let service := new_LightspeedTokenService host in
  match op with
  | Login authCode => forget (loginWithAuthCode crypto host service authCode)
  | SetManually a r m => forget (setTokensManually crypto service a r m)
  | Refresh r => forget (refreshTokens crypto host service r)
  | GetValidAccessToken => forget (getValidAccessToken crypto host service)
  | SchedulerTick => checkAndRefreshTokens crypto host (new_TokenScheduler host)
  | HealthCheck => performHealthCheck (new_TokenScheduler host)
  | Status => forget (getTokenStatus service)
  | Latest => forget getLatestTokens
  | Clear => clearTokens
  | Elapse ms => fun w => Ran (Return tt) (with_clock w (clock w + Z.of_N ms)) []
  end.

(** The world after a sequence of operations; an operation that throws
    leaves the world as it was when it threw. *)
Fixpoint run_all (crypto : CryptoLibrary) (steps : list (Host * Operation)) (w : World) : World :=
  match steps with
  | [] => w
  | (host, op) :: rest => run_all crypto rest (after (run crypto host op w))
  end.

(** The unconfigured system: no row, at time [now], in the time zone
    [zone]. *)
Definition unconfigured (now : Z) (zone : Z -> bool -> Z) (random : nat -> byte) : World :=
  {| table := []; clock := now; LocalTZA := zone; entropy := random; drawn := 0;
     lastTokenCheckHadTokens := false |}.

(** Worlds the system can be in. *)
Inductive reachable (crypto : CryptoLibrary) : World -> Prop :=
| reachable_start now zone random : reachable crypto (unconfigured now zone random)
| reachable_step w host op :
    reachable crypto w -> reachable crypto (after (run crypto host op w)).

(** The console arguments of a list of events, in order. *)
Fixpoint console (events : list Event) : list (list Arg) :=
  match events with
  | [] => []
  | console_log args :: rest => args :: console rest
  | console_error args :: rest => args :: console rest
  | _ :: rest => console rest
  end.

(** The requests sent to the provider, in order. *)
Fixpoint requests (events : list Event) : list TokenRequest :=
  match events with
  | [] => []
  | Posted request _ :: rest => request :: requests rest
  | _ :: rest => requests rest
  end.

(** The store writes, in order. *)
Fixpoint writes (events : list Event) : list StoreWrite :=
  match events with
  | [] => []
  | Wrote w :: rest => w :: writes rest
  | _ :: rest => writes rest
  end.

(** Every store write among [events] comes after a provider exchange
    that answered with a success status. *)
Fixpoint written_after_success (answered : bool) (events : list Event) : Prop :=
  match events with
  | [] => True
  | Posted _ (HttpResponse status _ _) :: rest =>
      written_after_success (answered || ok status) rest
  | Wrote _ :: rest => answered = true /\ written_after_success answered rest
  | _ :: rest => written_after_success answered rest
  end.

(* ================================================================== *)
(** ** A sample installation, used to run the definitions *)
(* ================================================================== *)

Module Sample.

Definition xor_bits (a b : byte) : byte :=
  let '(a0, (a1, (a2, (a3, (a4, (a5, (a6, a7))))))) := Byte.to_bits a in
  let '(b0, (b1, (b2, (b3, (b4, (b5, (b6, b7))))))) := Byte.to_bits b in
  Byte.of_bits (xorb a0 b0, (xorb a1 b1, (xorb a2 b2, (xorb a3 b3,
               (xorb a4 b4, (xorb a5 b5, (xorb a6 b6, xorb a7 b7))))))).

(** A stand-in for the block cipher: every byte is combined with one
    byte of the key and one of the vector. *)
Fixpoint stream (key iv : list byte) (at_ : nat) (data : list byte) : list byte :=
  match data with
  | [] => []
  | b :: rest =>
      xor_bits b (xor_bits (nth (at_ mod 32) key x00) (nth (at_ mod 16) iv x00))
      :: stream key iv (S at_) rest
  end.

Definition library : CryptoLibrary :=
  {| cbc_encrypt key iv plain := stream key iv 0 plain;
     cbc_decrypt key iv payload := Some (stream key iv 0 payload) |}.

Definition key64 : string :=
  "000102030405060708090a0b0c0d0e0f101112131415161718191a1b1c1d1e1f".

Definition random (n : nat) : byte :=
  match Byte.of_N (N.of_nat ((7 * n + 3) mod 256)) with
  | Some b => b
  | None => x00
  end.

(** A provider that rotates both tokens. *)
Definition rotating (request : TokenRequest) : FetchResult :=
  HttpResponse 200 "{...}"
    (Some {| access_token := Some "access-token-number-two-0123456789";
             refresh_token := Some "refresh-token-number-two-0123456789";
             expires_in := Some 1800 |}).

(** A provider that rejects every request. *)
Definition rejecting (request : TokenRequest) : FetchResult :=
  HttpResponse 400 "invalid_grant" None.

(** A provider that cannot be reached. *)
Definition unreachable (request : TokenRequest) : FetchResult :=
  NetworkFailure "fetch failed".

(** A provider whose answer lacks the refresh token. *)
Definition forgetful (request : TokenRequest) : FetchResult :=
  HttpResponse 200 "{...}"
    (Some {| access_token := Some "access-token-number-two-0123456789";
             refresh_token := None;
             expires_in := Some 1800 |}).

(** A provider whose answer lacks [expires_in]. *)
Definition timeless (request : TokenRequest) : FetchResult :=
  HttpResponse 200 "{...}"
    (Some {| access_token := Some "access-token-number-two-0123456789";
             refresh_token := Some "refresh-token-number-two-0123456789";
             expires_in := None |}).

Definition host_with (provider : TokenRequest -> FetchResult) : Host :=
  {| TOKEN_ENCRYPTION_KEY := Some key64;
     LIGHTSPEED_CLIENT_ID := Some "client";
     LIGHTSPEED_CLIENT_SECRET := Some "secret";
     fetch := provider |}.

Definition service : LightspeedTokenService :=
  new_LightspeedTokenService (host_with rotating).

(** A process that runs in UTC. *)
Definition utc (t : Z) (isUTC : bool) : Z := 0.

(** A process in London: one hour ahead of UTC until the clocks went
    back on 29 October 2023 at 01:00 UTC, and on UTC after that. *)
Definition london (t : Z) (isUTC : bool) : Z :=
  if isUTC
  then (if t <? 1698541200000 then 3600000 else 0)
  else (if t <? 1698541200000 + 3600000 then 3600000 else 0).

Definition start : World := unconfigured 1700000000000 utc random.

(** London, half an hour before the clocks go back. *)
Definition autumn : World := unconfigured 1698539400000 london random.

(** One hour of validity, set by hand. *)
Definition configured : World :=
  run_all library
    [(host_with rotating,
      SetManually "access-token-number-one-0123456789"
                  "refresh-token-number-one-0123456789" None)]
    start.

(** The same, 55 minutes later: inside the refresh buffer. *)
Definition stale : World :=
  run_all library [(host_with rotating, Elapse 3300000)] configured.

End Sample.

(* ================================================================== *)
(** ** Vocabulary of the properties *)
(* ================================================================== *)

(** The cipher of the library decrypts what it encrypted. *)
Definition faithful (crypto : CryptoLibrary) : Prop :=
  forall key iv plain,
    length key = 32%nat -> length iv = 16%nat ->
    cbc_decrypt crypto key iv (cbc_encrypt crypto key iv plain) = Some plain.

(** The configured key is the hexadecimal text of 32 bytes. *)
Definition key_of (host : Host) (key : string) : Prop :=
  TOKEN_ENCRYPTION_KEY host = Some key /\ length (Buffer.from_hex key) = 32%nat.

(** The vector the next call of [encrypt] draws. *)
Definition next_iv (w : World) : list byte := map (entropy w) (seq (drawn w) 16).

(** The client credentials are configured. *)
Definition credentials (host : Host) (cid secret : string) : Prop :=
  LIGHTSPEED_CLIENT_ID host = Some cid /\ LIGHTSPEED_CLIENT_SECRET host = Some secret
  /\ cid <> EmptyString /\ secret <> EmptyString.

(** The body [requestTokenRefresh] posts. *)
Definition refresh_body (cid secret refreshToken : string) : TokenRequest :=
  {| grant_type := "refresh_token"; client_id := cid; client_secret := secret;
     code := None; sent_refresh_token := Some refreshToken |}.

(** The body [exchangeAuthCodeForTokens] posts. *)
Definition code_body (cid secret authCode : string) : TokenRequest :=
  {| grant_type := "authorization_code"; client_id := cid; client_secret := secret;
     code := Some (remove_spaces authCode); sent_refresh_token := None |}.

(** The provider call failed: the request was rejected by the transport,
    or answered with a status outside 200..299. *)
Definition failed (response : FetchResult) : Prop :=
  match response with
  | NetworkFailure _ => True
  | HttpResponse status _ _ => ok status = false
  end.

(** A parsed answer has both tokens. *)
Definition complete (data : LightspeedTokenResponse) : bool :=
  truthy (access_token data) && truthy (refresh_token data).

(** The text of a value known to be a string. *)
Definition text_of (v : option string) : string :=
  match v with Some text => text | None => EmptyString end.

(** What [requestTokenRefresh] prints and posts before it looks at the
    answer. *)
Definition refresh_intro (cid secret refreshToken : string) (answer : FetchResult)
  : list Event :=
  [console_log [Text "🔄 Requesting token refresh from Lightspeed..."];
   console_log [Text "  Using refresh token (first 20 chars):"; Text (first20 refreshToken)];
   Posted (refresh_body cid secret refreshToken) answer].

(** What its [catch] prints. *)
Definition refresh_failure_lines (refreshToken : string) (e : Exn) : list Event :=
  [console_error [Text "❌ Network error during token refresh:"; Caught e];
   console_log [Text "🚨 The refresh token that caused the error was:"; Text refreshToken]].

(** What [exchangeAuthCodeForTokens] prints and posts before it looks at
    the answer. *)
Definition exchange_intro (cid secret authCode : string) (answer : FetchResult)
  : list Event :=
  [console_log [Text "🌐 Making token exchange request to Lightspeed..."];
   console_log [Text "  Client ID:"; Text cid];
   console_log [Text "  Request body:"; Body (code_body cid secret authCode)];
   Posted (code_body cid secret authCode) answer].

(** [data.expires_in || 3600] *)
Definition expires_in_or_hour (data : LightspeedTokenResponse) : option Z :=
  if truthy_num (expires_in data) then expires_in data else Some 3600.

(** The text [encrypt] builds from a key, a vector and a plaintext. *)
Definition ciphertext (crypto : CryptoLibrary) (key : string) (iv : list byte)
  (text : string) : string :=
  Buffer.toString_hex iv ++ ":" ++
  Buffer.toString_hex
    (cbc_encrypt crypto (Buffer.from_hex key) iv (list_byte_of_string text)).

(** The row [db.update] writes over a row. *)
Definition overwrite (access refresh : string) (expires updated : Z)
  (row : LightspeedToken) : LightspeedToken :=
  {| id := id row; accessToken := access; refreshToken := refresh;
     expiresAt := Some expires; updatedAt := updated |}.

(** The row [insertTokens] has [db.create] append. *)
Definition fresh_row (access refresh : string) (expires updated : Z)
  : LightspeedToken :=
  {| id := 0; accessToken := access; refreshToken := refresh;
     expiresAt := Some expires; updatedAt := updated |}.

(** The table holds no row under the key [insertTokens] passes. *)
Definition vacant (w : World) : bool :=
  negb (existsb (fun row => id row =? 0) (table w)).

(** The instant [setSeconds] computes from the clock and [n] seconds. *)
Definition moved (w : World) (n : Z) : Z :=
  UTC w (LocalTime w (clock w) + 1000 * n).

(** A time value a [Date] can hold. *)
Definition representable (time : Z) : bool := Z.abs time <=? 8640000000000000.

(** The offset of local time is the same at the clock and [n] seconds
    later (as local time reads it): [setSeconds] then adds [1000 * n]
    milliseconds. *)
Definition same_offset (w : World) (n : Z) : Prop :=
  LocalTZA w (LocalTime w (clock w) + 1000 * n) false = LocalTZA w (clock w) true.

(** The decision of [needsRefresh] at the instant [now]. *)
Definition due (this : LightspeedTokenService) (tokens : LightspeedToken) (now : Z) : bool :=
  match expiresAt tokens with
  | None => true
  | Some expires => expires - REFRESH_BUFFER_MINUTES this * 60 * 1000 <=? now
  end.

(** The status [getTokenStatus] computes from a row at the instant [now]. *)
Definition status_of (this : LightspeedTokenService) (tokens : LightspeedToken) (now : Z)
  : TokenStatus.t :=
  {| TokenStatus.isValid :=
       match expiresAt tokens with Some e => now <? e | None => false end;
     TokenStatus.expiresAt := expiresAt tokens;
     TokenStatus.expiresIn :=
       match expiresAt tokens with
       | Some e => Z.max 0 ((e - now) / (1000 * 60))
       | None => 0
       end;
     TokenStatus.needsRefresh := due this tokens now;
     TokenStatus.lastUpdated := updatedAt tokens |}.

(** How one operation can leave the table: as it was, with one row
    appended, or with its first row written over in place. *)
Definition kept (w w' : World) : Prop := table w' = table w.

Definition inserted (w w' : World) : Prop :=
  exists row,
    table w' = (table w ++ [row])%list /\ updatedAt row = clock w
    /\ id row = 0 /\ vacant w = true.

Definition replaced (w w' : World) : Prop :=
  exists row old rest,
    table w = old :: rest /\ table w' = row :: rest
    /\ id row = id old /\ updatedAt row = clock w.

(** What a refresh does to the table: nothing, the first insertion, or a
    replacement in place. *)
Definition refreshed (w w' : World) : Prop :=
  kept w w' \/ (table w = [] /\ inserted w w') \/ replaced w w'.


(** Every row is under the key [insertTokens] passes. *)
Definition keyed (w : World) : Prop :=
  Forall (fun row => id row = 0) (table w).

(** A day in the life of the sample installation. *)
Definition sample_steps : list (Host * Operation) :=
  [(Sample.host_with Sample.rotating, Login "code-1");
   (Sample.host_with Sample.rotating, Elapse 3300000);
   (Sample.host_with Sample.rotating, SchedulerTick);
   (Sample.host_with Sample.rejecting, GetValidAccessToken);
   (Sample.host_with Sample.rotating, Clear);
   (Sample.host_with Sample.rotating,
    SetManually "access-token-number-one-0123456789"
                "refresh-token-number-one-0123456789" (Some 30));
   (Sample.host_with Sample.rotating, Login "code-2");
   (Sample.host_with Sample.rotating, Refresh "refresh-token-number-one-0123456789")].

(** The stale sample world with the two token columns overwritten by
    text that is no ciphertext, and a host without an encryption key. *)
Definition garbled : World :=
  with_table Sample.stale
    (map (fun row => {| id := id row; accessToken := "not a ciphertext";
                        refreshToken := "zz:zz:zz";
                        expiresAt := expiresAt row; updatedAt := updatedAt row |})
       (table Sample.stale)).

Definition keyless : Host :=
  {| TOKEN_ENCRYPTION_KEY := None;
     LIGHTSPEED_CLIENT_ID := Some "client";
     LIGHTSPEED_CLIENT_SECRET := Some "secret";
     fetch := Sample.unreachable |}.

(** The two fields of the first row that a status is computed from. *)
Definition dates (w : World) : option (option Z * Z) :=
  option_map (fun row => (expiresAt row, updatedAt row)) (hd_error (table w)).






(* ================================================================== *)
(** ** The command-line methods of [LightspeedTokenService] *)
(* ================================================================== *)

Module Cli.

(** The [message] of a result: a fixed text, or a fixed text followed
    by the [message] of the error that was caught. *)
Inductive Message :=
| Says (text : string)
| Because (text : string) (e : Exn).

(** [{ accessToken, refreshToken, expiresAt }] of [cliShowTokens]. *)
Record Shown := {
  accessToken : string;
  refreshToken : string;
  expiresAt : option Z
}.

(** [{ success, message, status?, formatted?, tokens? }]; an absent
    field and a null one are both [None].  [formatted] is the list of
    the pieces of the text: its lines, then the tips. *)
Record Answer := {
  success : bool;
  message : Message;
  status : option TokenStatus.t;
  formatted : option (list Arg);
  tokens : option Shown
}.

Definition failure (m : Message) : Answer :=
  {| success := false; message := m; status := None; formatted := None;
     tokens := None |}.

Definition done (text : string) (st : option TokenStatus.t) : Answer :=
  {| success := true; message := Says text; status := st; formatted := None;
     tokens := None |}.

End Cli.

(** [text.includes(" ")] *)
Fixpoint includes_space (text : string) : bool :=
  match text with
  | EmptyString => false
  | String c rest => Ascii.eqb c " " || includes_space rest
  end.

Section CliMethods.

Variable crypto : CryptoLibrary.
Variable host : Host.

Definition cliLogin (this : LightspeedTokenService) (authCode : string) : M Cli.Answer :=
  if blank authCode
  then ret (Cli.failure (Cli.Says "Authorization code is required"))
  else
    try_catch
      (log [Text "🔐 Exchanging authorization code for tokens..."] ;;
       tokens <- loginWithAuthCode crypto host this authCode ;;
       match tokens with
       | Some _ =>
           status <- getTokenStatus this ;;
           ret (Cli.done "Login successful! Tokens stored securely." status)
       | None =>
           ret (Cli.failure
                  (Cli.Says "Failed to complete login - invalid authorization code or network error"))
       end)
      (fun e => ret (Cli.failure (Cli.Because "Login failed: " e))).

Definition cliRefresh (this : LightspeedTokenService) : M Cli.Answer :=
  try_catch
    (log [Text "🔄 Refreshing tokens..."] ;;
     currentTokens <- getLatestTokens ;;
     match currentTokens with
     | None =>
         ret (Cli.failure
                (Cli.Says "No tokens found. Please login first using the login command"))
     | Some current =>
         plain <- lift (decrypt crypto this (refreshToken current)) ;;
         refreshedTokens <- refreshTokens crypto host this plain ;;
         match refreshedTokens with
         | Some _ =>
             status <- getTokenStatus this ;;
             ret (Cli.done "Tokens refreshed successfully!" status)
         | None =>
             ret (Cli.failure
                    (Cli.Says "Failed to refresh tokens - they may be expired or invalid"))
         end
     end)
    (fun e => ret (Cli.failure (Cli.Because "Refresh failed: " e))).

(** The tips [cliStatus] appends. *)
Definition tips (status : TokenStatus.t) : string :=
  if TokenStatus.needsRefresh status && TokenStatus.isValid status
  then String "010" (String "010" "💡 Tip: Run the refresh command to refresh tokens")
  else if negb (TokenStatus.isValid status)
  then String "010" (String "010"
         "🚨 Tokens are expired. Try refreshing or login again if refresh fails.")
  else EmptyString.

Definition cliStatus (this : LightspeedTokenService) : M Cli.Answer :=
  try_catch
    (status <- getTokenStatus this ;;
     match status with
     | None =>
         ret {| Cli.success := false;
                Cli.message := Cli.Says "No tokens found";
                Cli.status := None;
                Cli.formatted :=
                  Some [Text (String.append "❌ No tokens found"
                                (String "010" "Use the login command to get started"))];
                Cli.tokens := None |}
     | Some status =>
         let formatted :=
           [Text "📊 Token Status:";
            Template [Text "   Valid: ";
                      Text (if TokenStatus.isValid status then "✅" else "❌")];
            Template [Text "   Expires: ";
                      match TokenStatus.expiresAt status with
                      | Some e => Iso e
                      | None => Text "Unknown"
                      end];
            Template [Text "   Expires in: "; Num (Some (TokenStatus.expiresIn status));
                      Text " minutes"];
            Template [Text "   Needs refresh: ";
                      Text (if TokenStatus.needsRefresh status then "⚠️ Yes" else "✅ No")];
            Template [Text "   Last updated: "; Iso (TokenStatus.lastUpdated status)]] in
         ret {| Cli.success := true;
                Cli.message := Cli.Says "Token status retrieved";
                Cli.status := Some status;
                Cli.formatted := Some (formatted ++ [Text (tips status)])%list;
                Cli.tokens := None |}
     end)
    (fun e => ret (Cli.failure (Cli.Because "Failed to get token status: " e))).

Definition cliClear : M Cli.Answer :=
  try_catch
    (clearTokens ;;
     ret (Cli.done "All tokens cleared successfully" None))
    (fun e => ret (Cli.failure (Cli.Because "Failed to clear tokens: " e))).

Definition cliShowTokens (this : LightspeedTokenService) : M Cli.Answer :=
  try_catch
    (tokens <- getLatestTokens ;;
     match tokens with
     | None => ret (Cli.failure (Cli.Says "No tokens found"))
     | Some tokens =>
         access <- lift (decrypt crypto this (accessToken tokens)) ;;
         refresh <- lift (decrypt crypto this (refreshToken tokens)) ;;
         ret {| Cli.success := true;
                Cli.message := Cli.Says "Tokens retrieved successfully";
                Cli.status := None;
                Cli.formatted := None;
                Cli.tokens := Some {| Cli.accessToken := access;
                                      Cli.refreshToken := refresh;
                                      Cli.expiresAt := expiresAt tokens |} |}
     end)
    (fun e => ret (Cli.failure (Cli.Because "Failed to retrieve tokens: " e))).

Definition cliSetTokens (this : LightspeedTokenService)
  (accessToken refreshToken : string) (expiresInMinutes : option Z) : M Cli.Answer :=
  if blank accessToken || blank refreshToken
  then ret (Cli.failure (Cli.Says "Both access token and refresh token are required"))
  else if (String.length accessToken <? 10)%nat || (String.length refreshToken <? 10)%nat
  then ret (Cli.failure
              (Cli.Says "Tokens appear too short - please verify they are complete"))
  else if includes_space accessToken || includes_space refreshToken
  then ret (Cli.failure
              (Cli.Says "Tokens should not contain spaces - please verify they are correct"))
  else
    try_catch
      (setTokensManually crypto this accessToken refreshToken expiresInMinutes ;;
       status <- getTokenStatus this ;;
       ret (Cli.done "Tokens set manually and stored securely" status))
      (fun e => ret (Cli.failure (Cli.Because "Failed to set tokens: " e))).

End CliMethods.

(* ================================================================== *)
(** ** The timers of [TokenScheduler] *)
(* ================================================================== *)

(** The callback a cron task runs. *)
Inductive Job :=
| RefreshJob
| HealthJob.

(** A task object of the cron library; [ticket] tells two objects
    apart. *)
Record ScheduledTask := {
  ticket : nat;
  expression : string;
  job : Job
}.

(** The two task fields of the scheduler object, the tasks the cron
    library holds started, and the number of task objects made so
    far. *)
Record Timers := {
  refreshTask : option ScheduledTask;
  healthCheckTask : option ScheduledTask;
  ticking : list ScheduledTask;
  made : nat
}.

(** The fields as the constructor leaves them. *)
Definition no_timers : Timers :=
  {| refreshTask := None; healthCheckTask := None; ticking := []; made := 0 |}.

(** [task.stop()] *)
Definition stop_task (task : ScheduledTask) (tasks : list ScheduledTask)
  : list ScheduledTask :=
  filter (fun other => negb (ticket other =? ticket task)%nat) tasks.

Definition startRefreshScheduler (this : Timers) : Timers * list Event :=
  match refreshTask this with
  | Some _ =>
      (this, [console_log [Text "⚠️  Token refresh scheduler is already running"]])
  | None =>
      let task := {| ticket := made this; expression := "*/5 * * * *";
                     job := RefreshJob |} in
      ({| refreshTask := Some task; healthCheckTask := healthCheckTask this;
          ticking := task :: ticking this; made := S (made this) |},
       [console_log [Text "🚀 Token refresh scheduler started (runs every 5 minutes)"]])
  end.

Definition startHealthCheckScheduler (this : Timers) : Timers * list Event :=
  match healthCheckTask this with
  | Some _ =>
      (this, [console_log [Text "⚠️  Health check scheduler is already running"]])
  | None =>
      let task := {| ticket := made this; expression := "0 * * * *";
                     job := HealthJob |} in
      ({| refreshTask := refreshTask this; healthCheckTask := Some task;
          ticking := task :: ticking this; made := S (made this) |},
       [console_log [Text "🏥 Health check scheduler started (runs every hour)"]])
  end.

Definition startAll (this : Timers) : Timers * list Event :=
  let '(this1, events1) := startRefreshScheduler this in
  let '(this2, events2) := startHealthCheckScheduler this1 in
  (this2, (events1 ++ events2)%list).

Definition stopRefreshScheduler (this : Timers) : Timers * list Event :=
  match refreshTask this with
  | Some task =>
      ({| refreshTask := None; healthCheckTask := healthCheckTask this;
          ticking := stop_task task (ticking this); made := made this |},
       [console_log [Text "🛑 Token refresh scheduler stopped"]])
  | None => (this, [])
  end.

Definition stopHealthCheckScheduler (this : Timers) : Timers * list Event :=
  match healthCheckTask this with
  | Some task =>
      ({| refreshTask := refreshTask this; healthCheckTask := None;
          ticking := stop_task task (ticking this); made := made this |},
       [console_log [Text "🛑 Health check scheduler stopped"]])
  | None => (this, [])
  end.

Definition stopAll (this : Timers) : Timers * list Event :=
  let '(this1, events1) := stopRefreshScheduler this in
  let '(this2, events2) := stopHealthCheckScheduler this1 in
  (this2, (events1 ++ events2)%list).

(** [{ refreshSchedulerRunning, healthCheckSchedulerRunning }] *)
Definition getSchedulerStatus (this : Timers) : bool * bool :=
  (match refreshTask this with Some _ => true | None => false end,
   match healthCheckTask this with Some _ => true | None => false end).

(** The calls a holder of the scheduler can make on its timers. *)
Inductive TimerCall :=
| StartRefresh
| StartHealth
| StartAll
| StopRefresh
| StopHealth
| StopAll.

Definition call (c : TimerCall) (this : Timers) : Timers * list Event :=
  match c with
  | StartRefresh => startRefreshScheduler this
  | StartHealth => startHealthCheckScheduler this
  | StartAll => startAll this
  | StopRefresh => stopRefreshScheduler this
  | StopHealth => stopHealthCheckScheduler this
  | StopAll => stopAll this
  end.

Fixpoint calls (cs : list TimerCall) (this : Timers) : Timers :=
  match cs with
  | [] => this
  | c :: rest => calls rest (fst (call c this))
  end.

(** The started tasks that run the given job. *)
Definition ticking_for (j : Job) (this : Timers) : list ScheduledTask :=
  filter (fun task => match job task, j with
                      | RefreshJob, RefreshJob | HealthJob, HealthJob => true
                      | _, _ => false
                      end) (ticking this).

(* ================================================================== *)
(** ** [startTokenService] of [server.ts] (the signal handlers it
    registers are not modelled) *)
(* ================================================================== *)

Definition on_timers (f : Timers -> Timers * list Event) (this : Timers) : M Timers :=
  fun w => Ran (Return (fst (f this))) w (snd (f this)).

Definition startTokenService (host : Host) (timers : Timers) : M Timers :=
  let scheduler := new_TokenScheduler host in
  let tokenService := new_LightspeedTokenService host in
  log [Text "🚀 Starting Lightspeed Token Service..."] ;;
  log [Text "🔍 Performing initial token health check..."] ;;
  initialStatus <- getTokenStatus tokenService ;;
  match initialStatus with
  | None =>
      log [Text ""] ;;
      log [Text "⚠️  WARNING: No tokens configured!"] ;;
      log [Text "🚨 The service is starting but cannot manage tokens until you login"] ;;
      log [Text ""] ;;
      log [Text "📋 To configure tokens (choose one):"] ;;
      log [Text "   Option 1 - OAuth: bun run tokens login <authorization_code>"] ;;
      log [Text "   Option 2 - Manual: bun run tokens set <access_token> <refresh_token>"] ;;
      log [Text "   The service will automatically start managing your tokens"] ;;
      log [Text ""] ;;
      log [Text "💡 The service will continue running and check for tokens periodically"] ;;
      log [Text ""]
  | Some _ => runOneTimeHealthCheck scheduler
  end ;;
  timers' <- on_timers startAll timers ;;
  log [Text "✅ Lightspeed Token Service is running"] ;;
  log [Text "📋 Service includes:"] ;;
  log [Text "   • Token refresh every 5 minutes"] ;;
  log [Text "   • Health check every hour"] ;;
  log [Text "   • Automatic token refresh before expiry"] ;;
  ret timers'.

(* ================================================================== *)
(** ** Vocabulary of the further properties *)
(* ================================================================== *)

(** A computation that leaves the scheduler's flag as it found it. *)
Definition steady {A} (m : M A) : Prop :=
  forall w, lastTokenCheckHadTokens (after (m w)) = lastTokenCheckHadTokens w.


(** The number [data.expires_in || 3600]. *)
Definition seconds_or_hour (data : LightspeedTokenResponse) : Z :=
  match expires_in data with
  | Some n => if n =? 0 then 3600 else n
  | None => 3600
  end.

(** Neither [!clientId] nor [!clientSecret]. *)
Definition has_credentials (host : Host) : bool :=
  truthy (LIGHTSPEED_CLIENT_ID host) && truthy (LIGHTSPEED_CLIENT_SECRET host).

(** No character of [text] is one that [remove_spaces] removes. *)
Definition spaceless (text : string) : bool :=
  forallb (fun c => negb (is_space c)) (list_ascii_of_string text).

(** A task as [startRefreshScheduler] and [startHealthCheckScheduler]
    make them. *)
Definition task_of (j : Job) (task : ScheduledTask) : Prop :=
  job task = j
  /\ expression task = match j with
                       | RefreshJob => "*/5 * * * *"
                       | HealthJob => "0 * * * *"
                       end.

(** The started tasks are the ones the two fields hold. *)
Definition in_step (t : Timers) : Prop :=
  match refreshTask t, healthCheckTask t with
  | None, None => ticking t = []
  | Some r, None => ticking t = [r] /\ task_of RefreshJob r /\ (ticket r < made t)%nat
  | None, Some h => ticking t = [h] /\ task_of HealthJob h /\ (ticket h < made t)%nat
  | Some r, Some h =>
      (ticking t = [r; h] \/ ticking t = [h; r])
      /\ task_of RefreshJob r /\ task_of HealthJob h
      /\ (ticket r < made t)%nat /\ (ticket h < made t)%nat
      /\ ticket r <> ticket h
  end.

(** Every row has an expiry date. *)
Definition dated (w : World) : Prop :=
  Forall (fun row => exists e, expiresAt row = Some e) (table w).

(** More sample data. *)
Module Example.

(** A host without a client id. *)
Definition anonymous : Host :=
  {| TOKEN_ENCRYPTION_KEY := Some Sample.key64;
     LIGHTSPEED_CLIENT_ID := None;
     LIGHTSPEED_CLIENT_SECRET := Some "secret";
     fetch := Sample.rotating |}.

(** A host without a key, whose provider answers. *)
Definition unkeyed : Host :=
  {| TOKEN_ENCRYPTION_KEY := None;
     LIGHTSPEED_CLIENT_ID := Some "client";
     LIGHTSPEED_CLIENT_SECRET := Some "secret";
     fetch := Sample.rotating |}.

(** The empty table, the tick before having found a row. *)
Definition emptied : World := with_lastTokenCheckHadTokens Sample.start true.

(** The row of the stale sample world. *)
Definition stale_row : LightspeedToken :=
  {| id := 0;
     accessToken :=
       ciphertext Sample.library Sample.key64 (next_iv Sample.start)
         "access-token-number-one-0123456789";
     refreshToken :=
       ciphertext Sample.library Sample.key64
         (next_iv (with_drawn Sample.start 16))
         "refresh-token-number-one-0123456789";
     expiresAt := Some 1700003600000;
     updatedAt := 1700000000000 |}.

End Example.
(* ================================================================== *)
(** * Properties *)
(* ================================================================== *)


(** ** Hexadecimal text and [split] *)

Lemma from_hex_byte_hex (b : byte) (rest : string) :
  Buffer.from_hex (Buffer.byte_hex b ++ rest) = b :: Buffer.from_hex rest.
Proof. destruct b; reflexivity. Qed.

Lemma from_hex_toString_hex (buf : list byte) :
  Buffer.from_hex (Buffer.toString_hex buf) = buf.
Proof.
  induction buf as [|b rest IH]; [reflexivity|].
  cbn [Buffer.toString_hex]. rewrite from_hex_byte_hex. now rewrite IH.
Qed.

Lemma split_not_nil (sep : ascii) (text : string) : split sep text <> [].
Proof.
  destruct text as [|c rest]; simpl; [discriminate|].
  destruct (Ascii.eqb c sep); [discriminate|].
  destruct (split sep rest); discriminate.
Qed.

Lemma split_byte_hex (b : byte) (rest : string) :
  split ":" (Buffer.byte_hex b ++ rest)
  = (Buffer.byte_hex b ++ hd EmptyString (split ":" rest)) :: tl (split ":" rest).
Proof.
  pose proof (split_not_nil ":" rest) as Hne.
  destruct (split ":" rest) as [|first others] eqn:E; [contradiction|].
  destruct b; simpl; rewrite E; reflexivity.
Qed.

Lemma append_assoc (a b c : string) : ((a ++ b) ++ c = a ++ (b ++ c))%string.
Proof. induction a as [|x a IH]; simpl; [reflexivity | now rewrite IH]. Qed.

Lemma append_empty_r (a : string) : (a ++ EmptyString = a)%string.
Proof. induction a as [|x a IH]; simpl; [reflexivity | now rewrite IH]. Qed.

Lemma split_toString_hex (buf : list byte) (rest : string) :
  split ":" (Buffer.toString_hex buf ++ rest)
  = (Buffer.toString_hex buf ++ hd EmptyString (split ":" rest)) :: tl (split ":" rest).
Proof.
  induction buf as [|b more IH].
  - simpl. pose proof (split_not_nil ":" rest).
    destruct (split ":" rest); [contradiction | reflexivity].
  - cbn [Buffer.toString_hex]. rewrite !append_assoc, split_byte_hex, IH.
    reflexivity.
Qed.

(** What [decrypt] reads out of the text [encrypt] builds. *)
Lemma split_ciphertext (iv payload : list byte) :
  split ":" (Buffer.toString_hex iv ++ ":" ++ Buffer.toString_hex payload)
  = [Buffer.toString_hex iv; Buffer.toString_hex payload].
Proof.
  rewrite split_toString_hex.
  change (split ":" (":" ++ Buffer.toString_hex payload))
    with (EmptyString :: split ":" (Buffer.toString_hex payload)).
  simpl hd. simpl tl. rewrite append_empty_r.
  rewrite <- (append_empty_r (Buffer.toString_hex payload)) at 1.
  rewrite split_toString_hex. simpl. now rewrite append_empty_r.
Qed.

Lemma next_iv_length (w : World) : length (next_iv w) = 16%nat.
Proof. unfold next_iv. now rewrite length_map, length_seq. Qed.

Lemma key_of_truthy host key : key_of host key -> truthy (Some key) = true.
Proof.
  intros [_ Hlen]. destruct key; [discriminate Hlen | reflexivity].
Qed.

(** ** [encrypt] and [decrypt] *)

Lemma Return_inj {A} (a b : A) : Return a = Return b -> a = b.
Proof. congruence. Qed.

(** With a key of 32 bytes [encrypt] returns the vector it drew and the
    cipher's output, both in hexadecimal, around a colon. *)
Lemma encrypt_runs crypto host key text w :
  key_of host key ->
  encrypt crypto (new_LightspeedTokenService host) text w
  = Ran (Return (Buffer.toString_hex (next_iv w) ++ ":" ++
                 Buffer.toString_hex
                   (cbc_encrypt crypto (Buffer.from_hex key) (next_iv w)
                      (list_byte_of_string text))))
        (with_drawn w (drawn w + 16)) [].
Proof.
  intros Hkey. pose proof (key_of_truthy _ _ Hkey) as Ht.
  destruct Hkey as [Hk Hlen].
  unfold encrypt. cbn [ENCRYPTION_KEY new_LightspeedTokenService ALGORITHM].
  rewrite Hk, Ht. cbn [negb].
  unfold bind, randomBytes, lift, ret, createCipheriv; cbn [result after emitted].
  rewrite Hlen. fold (next_iv w). rewrite next_iv_length.
  reflexivity.
Qed.

Lemma decrypt_ciphertext crypto host key iv plain :
  faithful crypto -> key_of host key -> length iv = 16%nat ->
  decrypt crypto (new_LightspeedTokenService host)
    (Buffer.toString_hex iv ++ ":" ++
     Buffer.toString_hex (cbc_encrypt crypto (Buffer.from_hex key) iv
                            (list_byte_of_string plain)))
  = Return plain.
Proof.
  intros Hf Hkey Hiv. pose proof (key_of_truthy _ _ Hkey) as Ht.
  destruct Hkey as [Hk Hlen].
  unfold decrypt. cbn [ENCRYPTION_KEY new_LightspeedTokenService ALGORITHM].
  rewrite Hk, Ht, split_ciphertext. cbn [negb hd nth_error].
  unfold createDecipheriv. rewrite !from_hex_toString_hex, Hlen, Hiv.
  cbn. rewrite Hf by assumption.
  now rewrite string_of_list_byte_of_string.
Qed.

Lemma ciphertext_vector (iv1 iv2 : list byte) (rest1 rest2 : string) :
  (Buffer.toString_hex iv1 ++ ":" ++ rest1 = Buffer.toString_hex iv2 ++ ":" ++ rest2)%string ->
  iv1 = iv2.
Proof.
  intros H. apply (f_equal (split ":")) in H.
  rewrite !split_toString_hex in H. simpl in H.
  rewrite !append_empty_r in H. injection H as H _.
  apply (f_equal Buffer.from_hex) in H.
  now rewrite !from_hex_toString_hex in H.
Qed.

(** C6.  Under a key of 32 bytes and a cipher that inverts itself,
    [encrypt] returns a text that begins with the hexadecimal form of
    the 16 bytes it drew for this call, followed by a colon; the bytes
    are used up by the call; [decrypt] of that text, with nothing else
    given, is the plaintext; and in two worlds whose next vectors differ
    the two ciphertexts of one plaintext differ. *)
Theorem encrypt_decrypt_round_trip :
  forall crypto host key (P : string) (w : World),
    faithful crypto -> key_of host key ->
    let this := new_LightspeedTokenService host in
    exists payload ciphertext,
      encrypt crypto this P w
      = Ran (Return ciphertext) (with_drawn w (drawn w + 16)) []
      /\ ciphertext = (Buffer.toString_hex (next_iv w) ++ ":" ++ payload)%string
      /\ decrypt crypto this ciphertext = Return P
      /\ forall w', next_iv w' <> next_iv w ->
           result (encrypt crypto this P w') <> Return ciphertext.
Proof.
  intros crypto host key P w Hf Hkey this. subst this.
  eexists. eexists. split; [apply (encrypt_runs _ _ _ _ _ Hkey)|].
  split; [reflexivity|]. split.
  - apply decrypt_ciphertext; auto using next_iv_length.
  - intros w' Hne Heq. rewrite (encrypt_runs _ _ _ _ _ Hkey) in Heq.
    cbn [result] in Heq. apply Return_inj in Heq.
    apply ciphertext_vector in Heq. contradiction.
Qed.

(** The sample cipher is faithful, and the sample key has 32 bytes. *)
Lemma xor_bits_twice (a m : byte) : Sample.xor_bits (Sample.xor_bits a m) m = a.
Proof.
  unfold Sample.xor_bits.
  destruct (Byte.to_bits a) as (a0 & a1 & a2 & a3 & a4 & a5 & a6 & a7) eqn:Ea.
  destruct (Byte.to_bits m) as (m0 & m1 & m2 & m3 & m4 & m5 & m6 & m7) eqn:Em.
  rewrite Byte.to_bits_of_bits.
  rewrite !xorb_assoc, !xorb_nilpotent, !xorb_false_r.
  rewrite <- Ea. apply Byte.of_bits_to_bits.
Qed.

Lemma stream_twice key iv data : forall n,
  Sample.stream key iv n (Sample.stream key iv n data) = data.
Proof.
  induction data as [|b rest IH]; intros n; [reflexivity|].
  cbn [Sample.stream]. now rewrite xor_bits_twice, IH.
Qed.

Lemma sample_faithful : faithful Sample.library.
Proof. intros key iv plain _ _. cbn. now rewrite stream_twice. Qed.

Lemma sample_key provider : key_of (Sample.host_with provider) Sample.key64.
Proof. split; reflexivity. Qed.

Lemma encrypt_decrypt_round_trip_witness :
  faithful Sample.library /\
  key_of (Sample.host_with Sample.rotating) Sample.key64 /\
  let this := new_LightspeedTokenService (Sample.host_with Sample.rotating) in
  exists payload ciphertext,
    encrypt Sample.library this "refresh-token-number-one-0123456789" Sample.start
    = Ran (Return ciphertext)
          (with_drawn Sample.start (drawn Sample.start + 16)) []
    /\ ciphertext = (Buffer.toString_hex (next_iv Sample.start) ++ ":" ++ payload)%string
    /\ decrypt Sample.library this ciphertext
       = Return "refresh-token-number-one-0123456789"
    /\ forall w', next_iv w' <> next_iv Sample.start ->
         result (encrypt Sample.library this
                   "refresh-token-number-one-0123456789" w')
         <> Return ciphertext.
Proof.
  split; [exact sample_faithful|]. split; [exact (sample_key _)|].
  exact (encrypt_decrypt_round_trip Sample.library
           (Sample.host_with Sample.rotating) Sample.key64
           "refresh-token-number-one-0123456789" Sample.start
           sample_faithful (sample_key _)).
Defined.

(** ** The refresh window *)

(** C5.  [needsRefresh] reads the clock and changes nothing; it returns
    [true] exactly when the row has no expiry or the clock has reached
    the expiry minus ten minutes.  An expiry nine minutes ahead gives
    [true], one eleven minutes ahead gives [false]. *)
Theorem needsRefresh_window :
  forall host (tokens : LightspeedToken) (w : World),
    let this := new_LightspeedTokenService host in
    (exists b,
        needsRefresh this tokens w = Ran (Return b) w []
        /\ (b = true <->
            expiresAt tokens = None
            \/ exists e, expiresAt tokens = Some e /\ clock w >= e - 10 * 60 * 1000))
    /\ (expiresAt tokens = Some (clock w + 9 * 60 * 1000) ->
        result (needsRefresh this tokens w) = Return true)
    /\ (expiresAt tokens = Some (clock w + 11 * 60 * 1000) ->
        result (needsRefresh this tokens w) = Return false).
Proof.
  intros host tokens w this. unfold needsRefresh, this.
  cbn [REFRESH_BUFFER_MINUTES new_LightspeedTokenService].
  repeat split.
  - destruct (expiresAt tokens) as [e|].
    + eexists. split; [reflexivity|]. rewrite Z.leb_le. split.
      * intros H. right. exists e. split; [reflexivity | lia].
      * intros [H | (e' & H & Hle)]; [discriminate|].
        injection H as <-. lia.
    + exists true. split; [reflexivity|]. split; auto.
  - intros ->. cbn. f_equal. apply Z.leb_le. lia.
  - intros ->. cbn. f_equal. apply Z.leb_gt. lia.
Qed.

(** ** The provider exchanges *)


Lemma truthy_nonempty (text : string) : text <> EmptyString -> truthy (Some text) = true.
Proof. intros H. destruct text; [contradiction | reflexivity]. Qed.

(** Unfolds the monad's operations in the goal. *)
Ltac run_m :=
  cbv [bind ret throw lift emit log error try_catch new_Date defined
       response_json post getLatestTokens db.findFirst setSeconds_plus];
  cbn [result after emitted app fst snd].

Ltac use_credentials H :=
  let Hid := fresh "Hid" in
  let Hsecret := fresh "Hsecret" in
  let Hne1 := fresh "Hne" in
  let Hne2 := fresh "Hne" in
  destruct H as (Hid & Hsecret & Hne1 & Hne2);
  rewrite ?Hid, ?Hsecret;
  rewrite ?(truthy_nonempty _ Hne1), ?(truthy_nonempty _ Hne2);
  cbn [negb orb].


Lemma truthy_text_of v : truthy v = true -> v = Some (text_of v).
Proof. destruct v; [reflexivity | discriminate]. Qed.

(** [requestTokenRefresh] with credentials, case by case. *)
Lemma requestTokenRefresh_eq host cid secret refreshToken w :
  credentials host cid secret ->
  requestTokenRefresh host refreshToken w
  = let answer := fetch host (refresh_body cid secret refreshToken) in
    let intro := refresh_intro cid secret refreshToken answer in
    match answer with
    | NetworkFailure reason =>
        Ran (Return None) w (intro ++ refresh_failure_lines refreshToken (TypeError reason))
    | HttpResponse status text json =>
        if ok status then
          match json with
          | None => Ran (Return None) w (intro ++ refresh_failure_lines refreshToken JsonError)
          | Some data =>
              Ran (Return (Some data)) w
                (intro ++
                 if complete data then
                   [console_log [Text "✅ Tokens refreshed successfully from Lightspeed"];
                    console_log [Text "  New Access Token (first 20):";
                                 Text (first20 (text_of (access_token data)))];
                    console_log [Text "  New Refresh Token (first 20):";
                                 Text (first20 (text_of (refresh_token data)))]]
                 else
                   [console_error [Text "❌ Invalid response - missing tokens:"; Json data]])
          end
        else
          Ran (Return None) w
            (intro ++
             [console_error [Text "❌ Token refresh failed:"; Num (Some status); Text text];
              console_log [Text "🚨 The refresh token that failed was:"; Text refreshToken]])
    end.
Proof.
  intros Hc. unfold requestTokenRefresh. use_credentials Hc.
  fold (refresh_body cid secret refreshToken). run_m.
  destruct (fetch host (refresh_body cid secret refreshToken)) as [reason|status text json].
  - reflexivity.
  - cbv zeta. destruct (ok status); cbn [negb]; [|reflexivity].
    destruct json as [data|]; [|reflexivity].
    unfold complete.
    destruct (truthy (access_token data)) eqn:Ea; [|reflexivity].
    destruct (truthy (refresh_token data)) eqn:Er; [|reflexivity].
    rewrite (truthy_text_of _ Ea), (truthy_text_of _ Er). reflexivity.
Qed.

(** [exchangeAuthCodeForTokens] with credentials, case by case. *)
Lemma exchangeAuthCodeForTokens_eq host cid secret authCode w :
  credentials host cid secret ->
  exchangeAuthCodeForTokens host authCode w
  = let answer := fetch host (code_body cid secret authCode) in
    let intro := exchange_intro cid secret authCode answer in
    match answer with
    | NetworkFailure reason =>
        Ran (Return None) w
          (intro ++ [console_error [Text "❌ Network error during token exchange:";
                                    Caught (TypeError reason)]])
    | HttpResponse status text json =>
        if ok status then
          match json with
          | None =>
              Ran (Return None) w
                (intro ++ [console_error [Text "❌ Network error during token exchange:";
                                          Caught JsonError]])
          | Some data =>
              if complete data then
                Ran (Return (Some {| access_token := access_token data;
                                     refresh_token := refresh_token data;
                                     expires_in := expires_in_or_hour data |})) w
                  (intro ++ [console_log [Text "✅ Token exchange successful"]])
              else
                Ran (Return None) w
                  (intro ++ [console_error [Text "❌ Invalid response - missing tokens:";
                                            Json data]])
          end
        else
          Ran (Return None) w
            (intro ++ [console_error [Text "❌ Token exchange failed:";
                                      Num (Some status); Text text]])
    end.
Proof.
  intros Hc. unfold exchangeAuthCodeForTokens. use_credentials Hc.
  fold (code_body cid secret authCode). run_m.
  destruct (fetch host (code_body cid secret authCode)) as [reason|status text json].
  - reflexivity.
  - cbv zeta. destruct (ok status); cbn [negb]; [|reflexivity].
    destruct json as [data|]; [|reflexivity].
    unfold complete, expires_in_or_hour.
    destruct (truthy (access_token data) && truthy (refresh_token data)); reflexivity.
Qed.

(** The parts of the contract of the two exchanges that the code keeps:
    the authorization-code exchange answers none to a failed call and to
    an incomplete answer, the refresh exchange answers none to a failed
    call; neither throws there. *)
Lemma exchanges_absorb_failures host cid secret text w :
  credentials host cid secret ->
  (failed (fetch host (code_body cid secret text)) ->
   result (exchangeAuthCodeForTokens host text w) = Return None)
  /\ (forall status body data,
         fetch host (code_body cid secret text) = HttpResponse status body (Some data) ->
         complete data = false ->
         result (exchangeAuthCodeForTokens host text w) = Return None)
  /\ (failed (fetch host (refresh_body cid secret text)) ->
      result (requestTokenRefresh host text w) = Return None).
Proof.
  intros Hc. rewrite (exchangeAuthCodeForTokens_eq _ _ _ _ _ Hc).
  rewrite (requestTokenRefresh_eq _ _ _ _ _ Hc). cbv zeta. repeat split.
  - destruct (fetch host (code_body cid secret text)); cbn; [reflexivity|].
    intros ->. reflexivity.
  - intros status body data -> Hd. rewrite Hd.
    destruct (ok status); reflexivity.
  - destruct (fetch host (refresh_body cid secret text)); cbn; [reflexivity|].
    intros ->. reflexivity.
Qed.

(** C4 (what the code does).  When the provider answers the refresh
    exchange with a success status and a body that lacks a token,
    [requestTokenRefresh] prints that the answer is invalid and then
    returns the body all the same: the result is not none. *)
Theorem requestTokenRefresh_returns_incomplete_answer :
  forall host cid secret refreshToken status body data w,
    credentials host cid secret ->
    fetch host (refresh_body cid secret refreshToken)
    = HttpResponse status body (Some data) ->
    ok status = true ->
    complete data = false ->
    requestTokenRefresh host refreshToken w
    = Ran (Return (Some data)) w
        (refresh_intro cid secret refreshToken (HttpResponse status body (Some data))
         ++ [console_error [Text "❌ Invalid response - missing tokens:"; Json data]]).
Proof.
  intros host cid secret refreshToken status body data w Hc Hf Hok Hd.
  rewrite (requestTokenRefresh_eq _ _ _ _ _ Hc). cbv zeta.
  rewrite Hf, Hok, Hd. reflexivity.
Qed.

Lemma sample_credentials provider :
  credentials (Sample.host_with provider) "client" "secret".
Proof. repeat split; discriminate. Qed.

Lemma requestTokenRefresh_returns_incomplete_answer_witness :
  requestTokenRefresh (Sample.host_with Sample.forgetful)
    "refresh-token-number-one-0123456789" Sample.stale
  = Ran (Return (Some {| access_token := Some "access-token-number-two-0123456789";
                         refresh_token := None;
                         expires_in := Some 1800 |}))
      Sample.stale
      (refresh_intro "client" "secret" "refresh-token-number-one-0123456789"
         (Sample.forgetful (refresh_body "client" "secret"
                              "refresh-token-number-one-0123456789"))
       ++ [console_error
             [Text "❌ Invalid response - missing tokens:";
              Json {| access_token := Some "access-token-number-two-0123456789";
                      refresh_token := None;
                      expires_in := Some 1800 |}]]).
Proof.
  exact (requestTokenRefresh_returns_incomplete_answer
           (Sample.host_with Sample.forgetful) "client" "secret"
           "refresh-token-number-one-0123456789" 200 "{...}" _ Sample.stale
           (sample_credentials _) eq_refl eq_refl eq_refl).
Defined.

(** ** Storing a token pair *)

(** Whatever the key, [encrypt] prints nothing and touches neither the
    table nor the clock. *)
Lemma encrypt_frame crypto this text w :
  let o := encrypt crypto this text w in
  emitted o = [] /\ table (after o) = table w /\ LocalTZA (after o) = LocalTZA w
  /\ clock (after o) = clock w.
Proof.
  unfold encrypt. destruct (ENCRYPTION_KEY this) as [key|]; [|cbn; auto].
  destruct (negb (truthy (Some key))); [cbn; auto|].
  run_m. unfold randomBytes.
  destruct (negb (length (Buffer.from_hex key) =? 32)%nat); [cbn; auto|].
  destruct (createCipheriv crypto (ALGORITHM this) (Buffer.from_hex key) _); cbn; auto.
Qed.

Ltac frame_encrypt E :=
  match type of E with
  | encrypt ?c ?t ?x ?w = _ =>
      let H := fresh "Hframe" in
      pose proof (encrypt_frame c t x w) as H; cbv zeta in H; rewrite E in H;
      cbn [emitted after] in H;
      let H1 := fresh "Hev" in let H2 := fresh "Htab" in
      let H3 := fresh "Hser" in let H4 := fresh "Hclk" in
      destruct H as (H1 & H2 & H3 & H4); subst
  end.

Ltac finish := cbn; repeat split; auto; try congruence.

(** A clipped time value is a date exactly when it is representable. *)
Lemma TimeClip_Instant time e :
  TimeClip time = Instant e <-> e = time /\ representable time = true.
Proof.
  unfold TimeClip, representable. destruct (Z.abs time <=? 8640000000000000).
  - split; [intros H; injection H as <-; auto | intros (-> & _); reflexivity].
  - split; [discriminate | intros (_ & H); discriminate].
Qed.

Lemma TimeClip_representable time :
  representable time = true -> TimeClip time = Instant time.
Proof. intros H. apply TimeClip_Instant. auto. Qed.

Lemma TimeClip_out_of_range time :
  representable time = false -> TimeClip time = InvalidDate.
Proof. unfold TimeClip, representable. now intros ->. Qed.

(** Where the offset does not change, [setSeconds] adds the seconds. *)
Lemma moved_same_offset w n : same_offset w n -> moved w n = clock w + 1000 * n.
Proof. unfold same_offset, moved, UTC, LocalTime. intros ->. lia. Qed.

(** A table that is not empty and whose rows have the key 0 has no room
    for another row. *)
Lemma keyed_not_vacant w row rest :
  keyed w -> table w = row :: rest -> vacant w = false.
Proof.
  unfold keyed, vacant. intros Hk Ht. rewrite Ht in *.
  inversion Hk as [|x l Hx Hl]. cbn. now rewrite Hx.
Qed.

Lemma vacant_nil w : table w = [] -> vacant w = true.
Proof. unfold vacant. now intros ->. Qed.

(** [updateTokens], whatever its arguments: it posts nothing and leaves
    the clock; when it throws the table is as before and nothing was
    written; when it returns, all three arguments were defined, the
    expiry is a date, both encryptions returned, and one row, the one
    with the given key, was overwritten where it stands. *)
Lemma updateTokens_spec crypto this k a r n w :
  let o := updateTokens crypto this k a r n w in
  requests (emitted o) = []
  /\ LocalTZA (after o) = LocalTZA w /\ clock (after o) = clock w
  /\ match result o with
     | Throw _ => table (after o) = table w /\ writes (emitted o) = []
     | Return _ =>
         exists a' r' n' c1 c2 new,
           a = Some a' /\ r = Some r' /\ n = Some n'
           /\ result (encrypt crypto this a' w) = Return c1
           /\ result (encrypt crypto this r' (after (encrypt crypto this a' w))) = Return c2
           /\ db.rewrite_row k (overwrite c1 c2 (moved w n') (clock w)) (table w)
              = Some (new, table (after o))
           /\ writes (emitted o) = [Updated new]
           /\ representable (moved w n') = true
     end.
Proof.
  unfold updateTokens. destruct a as [a'|]; [|finish].
  destruct r as [r'|]; [|finish]. run_m.
  destruct (encrypt crypto this a' w) as [[c1|e1] w1 ev1] eqn:E1; frame_encrypt E1;
    [|finish].
  destruct (encrypt crypto this r' w1) as [[c2|e2] w2 ev2] eqn:E2; frame_encrypt E2;
    [|finish].
  unfold db.update, toISOString.
  destruct n as [n'|]; [|finish].
  fold (moved w n').
  destruct (representable (moved w n')) eqn:Hrep;
    [rewrite (TimeClip_representable _ Hrep)
    |rewrite (TimeClip_out_of_range _ Hrep); finish].
  fold (overwrite c1 c2 (moved w n') (clock w2)).
  rewrite Htab0, Htab, Hclk0, Hclk.
  destruct (db.rewrite_row k _ (table w)) as [[new rows]|] eqn:Erow; [|finish].
  cbn. repeat split; try congruence.
  exists a', r', n', c1, c2, new. repeat split; auto.
  - now rewrite E1.
  - rewrite E1. cbn. now rewrite E2.
Qed.

(** [insertTokens], whatever its arguments: when it throws nothing was
    written; when it returns, the table held no row under the key 0,
    the expiry is a date, and one row was appended under that key. *)
Lemma insertTokens_spec crypto this a r n w :
  let o := insertTokens crypto this a r n w in
  requests (emitted o) = [] /\ clock (after o) = clock w
  /\ match result o with
     | Throw _ =>
         table (after o) = table w /\ LocalTZA (after o) = LocalTZA w
         /\ writes (emitted o) = []
     | Return row =>
         exists a' r' n' c1 c2,
           a = Some a' /\ r = Some r' /\ n = Some n'
           /\ result (encrypt crypto this a' w) = Return c1
           /\ result (encrypt crypto this r' (after (encrypt crypto this a' w))) = Return c2
           /\ row = fresh_row c1 c2 (moved w n') (clock w)
           /\ table (after o) = (table w ++ [row])%list
           /\ (representable (moved w n') = true /\ vacant w = true)
           /\ writes (emitted o) = [Created row]
     end.
Proof.
  unfold insertTokens. destruct a as [a'|]; [|finish].
  destruct r as [r'|]; [|finish]. run_m.
  destruct (encrypt crypto this a' w) as [[c1|e1] w1 ev1] eqn:E1; frame_encrypt E1;
    [|finish].
  destruct (encrypt crypto this r' w1) as [[c2|e2] w2 ev2] eqn:E2; frame_encrypt E2;
    [|finish].
  unfold db.create, toISOString.
  destruct n as [n'|]; [|finish].
  fold (moved w n').
  destruct (representable (moved w n')) eqn:Hrep;
    [rewrite (TimeClip_representable _ Hrep)
    |rewrite (TimeClip_out_of_range _ Hrep); finish].
  rewrite Htab0, Htab, Hclk0, Hclk.
  destruct (existsb (fun row => id row =? 0) (table w)) eqn:Hheld; [finish|].
  cbn. repeat split; auto; try congruence.
  exists a', r', n', c1, c2. unfold vacant. rewrite Hheld. repeat split; auto.
  - now rewrite E1.
  - rewrite E1. cbn. now rewrite E2.
Qed.

(** ** [refreshTokens] *)

Lemma written_after_success_true events : written_after_success true events.
Proof.
  induction events as [|e rest IH]; cbn; [exact I|].
  destruct e as [args|args|request [reason|status text json]|write]; cbn; auto.
Qed.

Lemma requests_app (a b : list Event) : requests (a ++ b) = (requests a ++ requests b)%list.
Proof.
  induction a as [|e a IH]; [reflexivity|]. destruct e; cbn; now rewrite IH.
Qed.

Lemma writes_app (a b : list Event) : writes (a ++ b) = (writes a ++ writes b)%list.
Proof.
  induction a as [|e a IH]; [reflexivity|]. destruct e; cbn; now rewrite IH.
Qed.

Lemma rewrite_row_head key f row rest :
  id row = key -> db.rewrite_row key f (row :: rest) = Some (f row, f row :: rest).
Proof. intros <-. cbn. now rewrite Z.eqb_refl. Qed.

(** [refreshTokens], whatever the host, the key and the answer: it never
    throws and leaves the clock; every write comes after an answer with
    a success status; with credentials it posts exactly one request;
    when it returns none nothing was written; when it returns a row, the
    provider answered with both tokens and [expires_in], both were
    encrypted, and the row was appended to an empty table or written
    over the first row. *)
Lemma refreshTokens_spec crypto host this refreshToken w :
  let o := refreshTokens crypto host this refreshToken w in
  clock (after o) = clock w
  /\ written_after_success false (emitted o)
  /\ (forall cid secret, credentials host cid secret ->
        requests (emitted o) = [refresh_body cid secret refreshToken])
  /\ match result o with
     | Throw _ => False
     | Return None =>
         table (after o) = table w /\ LocalTZA (after o) = LocalTZA w
         /\ writes (emitted o) = []
     | Return (Some row) =>
         exists cid secret status body data a' r' n' c1 c2,
           credentials host cid secret
           /\ fetch host (refresh_body cid secret refreshToken)
              = HttpResponse status body (Some data)
           /\ ok status = true
           /\ access_token data = Some a' /\ refresh_token data = Some r'
           /\ (expires_in data = Some n' /\ representable (moved w n') = true)
           /\ result (encrypt crypto this a' w) = Return c1
           /\ result (encrypt crypto this r' (after (encrypt crypto this a' w))) = Return c2
           /\ match table w with
              | [] => row = fresh_row c1 c2 (moved w n') (clock w)
                      /\ table (after o) = [row]
              | old :: rest =>
                  row = overwrite c1 c2 (moved w n') (clock w) old
                  /\ table (after o) = row :: rest
              end
     end.
Proof.
  intros o. assert (Ho : o = refreshTokens crypto host this refreshToken w) by reflexivity.
  clearbody o. cbv beta delta [refreshTokens try_catch bind] in Ho.
  destruct (LIGHTSPEED_CLIENT_ID host) as [cid|] eqn:Hid.
  2:{ unfold requestTokenRefresh in Ho. rewrite Hid in Ho. subst o. cbn.
      repeat split; auto. intros cid secret (H & _). congruence. }
  destruct (LIGHTSPEED_CLIENT_SECRET host) as [secret|] eqn:Hsecret.
  2:{ unfold requestTokenRefresh in Ho. rewrite Hid, Hsecret in Ho. subst o. cbn.
      repeat split; auto. intros cid' secret' (_ & H & _). congruence. }
  destruct (truthy (Some cid)) eqn:Tid.
  2:{ unfold requestTokenRefresh in Ho. rewrite Hid, Hsecret, Tid in Ho. subst o. cbn.
      repeat split; auto.
      intros cid' secret' (H & _ & Hne & _). rewrite Hid in H. injection H as <-.
      rewrite (truthy_nonempty _ Hne) in Tid. discriminate. }
  destruct (truthy (Some secret)) eqn:Tsecret.
  2:{ unfold requestTokenRefresh in Ho. rewrite Hid, Hsecret, Tid, Tsecret in Ho.
      subst o. cbn. repeat split; auto.
      intros cid' secret' (_ & H & _ & Hne). rewrite Hsecret in H. injection H as <-.
      rewrite (truthy_nonempty _ Hne) in Tsecret. discriminate. }
  assert (Hc : credentials host cid secret).
  { repeat split; auto; intros ->; discriminate. }
  assert (Hsame : forall cid' secret', credentials host cid' secret' ->
                    refresh_body cid' secret' refreshToken = refresh_body cid secret refreshToken).
  { intros cid' secret' (H1 & H2 & _). congruence. }
  rewrite (requestTokenRefresh_eq _ _ _ _ _ Hc) in Ho. cbv zeta in Ho.
  destruct (fetch host (refresh_body cid secret refreshToken))
    as [reason|status body json] eqn:Hfetch.
  { subst o. cbn. repeat split; auto. intros. now rewrite (Hsame _ _ H). }
  destruct (ok status) eqn:Hok.
  2:{ subst o. cbn. rewrite ?Hok. repeat split; auto. intros. now rewrite (Hsame _ _ H). }
  destruct json as [data|].
  2:{ subst o. cbn. rewrite ?Hok. repeat split; auto. intros. now rewrite (Hsame _ _ H). }
  set (said := if complete data then _ else _) in Ho.
  assert (Hsaid : requests said = [] /\ writes said = []
                  /\ forall b rest, written_after_success b (said ++ rest)
                                    = written_after_success b rest).
  { subst said. destruct (complete data); cbn; auto. }
  destruct Hsaid as (Hsaid1 & Hsaid2 & Hsaid3).
  cbv [getLatestTokens db.findFirst bind ret] in Ho.
  destruct (table w) as [|old rest] eqn:Htable; cbn [hd_error] in Ho.
  - (* no row: insert *)
    pose proof (insertTokens_spec crypto this (access_token data)
                  (refresh_token data) (expires_in data) w) as Hs.
    cbv zeta in Hs.
    destruct (insertTokens crypto this (access_token data) (refresh_token data)
                (expires_in data) w) as [[row|e] w1 ev1].
    + cbn [result after emitted] in Hs. destruct Hs as (Hreq & Hclk & a' & r' & n' & c1 & c2 & Ha & Hr & Hn
                                 & H1 & H2 & Hrow & Htab & (Hrep & Hvac) & Hwr).
      subst o. cbn. rewrite ?Hok. cbn. repeat split; auto using written_after_success_true.
      * intros. rewrite (Hsame _ _ H). f_equal.
        rewrite !requests_app, Hsaid1, Hreq. reflexivity.
      * exists cid, secret, status, body, data, a', r', n', c1, c2.
        rewrite Htable in Htab. split; [exact Hc|]. repeat split; auto.
    + cbn [result after emitted] in Hs. destruct Hs as (Hreq & Hclk & Htab & Hser & Hwr).
      subst o. cbn. rewrite ?Hok. cbn. repeat split; auto using written_after_success_true.
      * intros. rewrite (Hsame _ _ H). f_equal.
        rewrite !requests_app, Hsaid1, Hreq. reflexivity.
      * congruence.
      * rewrite !writes_app, Hsaid2, Hwr. reflexivity.
  - (* a row: update it *)
    pose proof (updateTokens_spec crypto this (id old) (access_token data)
                  (refresh_token data) (expires_in data) w) as Hs.
    cbv zeta in Hs.
    destruct (updateTokens crypto this (id old) (access_token data) (refresh_token data)
                (expires_in data) w) as [[[]|e] w1 ev1].
    + cbn [result after emitted] in Hs. destruct Hs as (Hreq & Hser & Hclk & a' & r' & n' & c1 & c2 & new & Ha & Hr & Hn
                                 & H1 & H2 & Hrow & Hwr & Hrep).
      rewrite Htable, (rewrite_row_head (id old)) in Hrow by reflexivity.
      injection Hrow as <- Htab. rewrite <- Htab in Ho.
      subst o. cbn. rewrite ?Hok. cbn. repeat split; auto using written_after_success_true.
      * intros. rewrite (Hsame _ _ H). f_equal.
        rewrite !requests_app, Hsaid1, Hreq. reflexivity.
      * exists cid, secret, status, body, data, a', r', n', c1, c2.
        split; [exact Hc|]. repeat split; auto.
    + cbn [result after emitted] in Hs. destruct Hs as (Hreq & Hser & Hclk & Htab & Hwr).
      subst o. cbn. rewrite ?Hok. cbn. repeat split; auto using written_after_success_true.
      * intros. rewrite (Hsame _ _ H). f_equal.
        rewrite !requests_app, Hsaid1, Hreq. reflexivity.
      * congruence.
      * rewrite !writes_app, Hsaid2, Hwr. reflexivity.
Qed.

(** C2.  If the provider call of a refresh fails (the transport rejects
    the request, or the status is not a success), [refreshTokens]
    returns none, the table is exactly what it was, and nothing was
    written; and in every run of [refreshTokens], whatever the host and
    the answer, each store write comes after a provider exchange that
    answered with a success status. *)
Theorem failed_refresh_leaves_the_store :
  forall crypto host this refreshToken w,
    let o := refreshTokens crypto host this refreshToken w in
    (forall cid secret,
        credentials host cid secret ->
        failed (fetch host (refresh_body cid secret refreshToken)) ->
        result o = Return None
        /\ table (after o) = table w
        /\ writes (emitted o) = []
        /\ requests (emitted o) = [refresh_body cid secret refreshToken])
    /\ written_after_success false (emitted o).
Proof.
  intros crypto host this refreshToken w o.
  destruct (refreshTokens_spec crypto host this refreshToken w)
    as (_ & Horder & Hreq & Hres).
  fold o in Horder, Hreq, Hres. split; [|exact Horder].
  intros cid secret Hc Hfail. rewrite (Hreq _ _ Hc).
  destruct (result o) as [[row|]|e]; [exfalso | | contradiction].
  - destruct Hres as (cid' & secret' & status & body & data & _ & _ & _ & _ & _
                      & Hc' & Hfetch & Hok & _).
    destruct Hc as (H1 & H2 & _), Hc' as (H1' & H2' & _).
    assert (cid' = cid) by congruence. assert (secret' = secret) by congruence.
    subst. rewrite Hfetch in Hfail. cbn in Hfail. congruence.
  - destruct Hres as (Ht & _ & Hw). auto.
Qed.

Lemma failed_refresh_leaves_the_store_witness :
  let host := Sample.host_with Sample.rejecting in
  let sent := "refresh-token-number-one-0123456789" in
  let o := refreshTokens Sample.library host Sample.service sent Sample.stale in
  credentials host "client" "secret"
  /\ failed (fetch host (refresh_body "client" "secret" sent))
  /\ result o = Return None
  /\ table (after o) = table Sample.stale
  /\ writes (emitted o) = []
  /\ requests (emitted o) = [refresh_body "client" "secret" sent]
  /\ written_after_success false (emitted o).
Proof.
  cbv zeta. split; [apply sample_credentials|]. split; [reflexivity|].
  destruct (failed_refresh_leaves_the_store Sample.library
              (Sample.host_with Sample.rejecting) Sample.service
              "refresh-token-number-one-0123456789" Sample.stale) as (Hfail & Horder).
  destruct (Hfail "client" "secret" (sample_credentials _) eq_refl)
    as (H1 & H2 & H3 & H4).
  repeat split; assumption.
Defined.

(** ** What the operations do to the table *)

Lemma needsRefresh_eq this tokens w :
  needsRefresh this tokens w = Ran (Return (due this tokens (clock w))) w [].
Proof. unfold needsRefresh, due. destruct (expiresAt tokens); reflexivity. Qed.

Lemma getTokenStatus_eq this w :
  getTokenStatus this w
  = Ran (Return (option_map (fun tokens => status_of this tokens (clock w))
                   (hd_error (table w)))) w [].
Proof.
  unfold getTokenStatus. run_m. destruct (hd_error (table w)) as [tokens|]; [|reflexivity].
  cbn [option_map]. rewrite needsRefresh_eq. reflexivity.
Qed.

Lemma refreshTokens_refreshed crypto host this refreshToken w :
  let w' := after (refreshTokens crypto host this refreshToken w) in
  clock w' = clock w /\ refreshed w w'.
Proof.
  intros w'. destruct (refreshTokens_spec crypto host this refreshToken w)
    as (Hclk & _ & _ & Hres). fold w' in Hclk, Hres. split; [exact Hclk|].
  destruct (result (refreshTokens crypto host this refreshToken w)) as [[row|]|e];
    [| left; apply Hres | contradiction].
  destruct Hres as (cid & secret & status & body & data & a' & r' & n' & c1 & c2
                    & _ & _ & _ & _ & _ & _ & _ & _ & Htab).
  destruct (table w) as [|old rest] eqn:Htable.
  - right. left. split; [exact Htable|]. destruct Htab as (-> & Htab).
    eexists. rewrite Htable. split; [exact Htab|].
    repeat split. now apply vacant_nil.
  - right. right. destruct Htab as (-> & Htab).
    exists (overwrite c1 c2 (moved w n') (clock w) old), old, rest.
    repeat split; [exact Htable | exact Htab].
Qed.

Lemma getValidAccessToken_refreshed crypto host this w :
  let w' := after (getValidAccessToken crypto host this w) in
  clock w' = clock w /\ refreshed w w'.
Proof.
  unfold getValidAccessToken. run_m.
  destruct (hd_error (table w)) as [tokens|]; [|cbn; split; [|left]; reflexivity].
  rewrite needsRefresh_eq. destruct (due this tokens (clock w)).
  - destruct (decrypt crypto this (refreshToken tokens)) as [plain|e];
      [|cbn; split; [|left]; reflexivity].
    pose proof (refreshTokens_refreshed crypto host this plain w) as H. cbv zeta in H.
    destruct (refreshTokens crypto host this plain w) as [[[row|]|e] w1 ev1];
      cbn [after] in H; [|exact H|exact H].
    destruct (decrypt crypto this (accessToken row)); exact H.
  - destruct (decrypt crypto this (accessToken tokens)); cbn; split; [|left| |left]; reflexivity.
Qed.

Lemma refreshed_same_table (w0 w w' : World) :
  table w0 = table w -> clock w0 = clock w -> refreshed w0 w' -> refreshed w w'.
Proof.
  unfold refreshed, kept, inserted, replaced, vacant. intros -> ->. auto.
Qed.

Lemma checkAndRefreshTokens_refreshed crypto host this w :
  let w' := after (checkAndRefreshTokens crypto host this w) in
  clock w' = clock w /\ refreshed w w'.
Proof.
  unfold checkAndRefreshTokens. run_m.
  cbv [get_lastTokenCheckHadTokens set_lastTokenCheckHadTokens].
  destruct (hd_error (table w)) as [tokens|].
  2:{ destruct (lastTokenCheckHadTokens w); cbn; split; [|left| |left]; reflexivity. }
  destruct (lastTokenCheckHadTokens w); cbn [negb]; rewrite needsRefresh_eq;
    (destruct (due _ _ _); [|cbn; split; [reflexivity | left; reflexivity]]);
    match goal with
    | |- context [refreshTokens ?c ?h ?t ?r ?w0] =>
        let H := fresh "H" in
        pose proof (refreshTokens_refreshed c h t r w0) as H; cbv zeta in H;
        destruct (refreshTokens c h t r w0) as [[[row|]|e] w1 ev1];
        cbn [after] in H; destruct H as (H1 & H2)
    end;
    rewrite ?getTokenStatus_eq; try destruct (hd_error (table w1)); cbn;
    (split; [exact H1 | eapply refreshed_same_table; [| |exact H2]; reflexivity]).
Qed.

Lemma performHealthCheck_kept this w :
  after (performHealthCheck this w) = w.
Proof.
  unfold performHealthCheck. run_m. rewrite getTokenStatus_eq.
  destruct (hd_error (table w)) as [tokens|]; [|reflexivity].
  cbn [option_map].
  destruct (_ && _); destruct (negb _); reflexivity.
Qed.

Lemma exchangeAuthCodeForTokens_kept host authCode w :
  after (exchangeAuthCodeForTokens host authCode w) = w
  /\ writes (emitted (exchangeAuthCodeForTokens host authCode w)) = [].
Proof.
  destruct (LIGHTSPEED_CLIENT_ID host) as [cid|] eqn:Hid;
    [|unfold exchangeAuthCodeForTokens; rewrite Hid; cbn; auto].
  destruct (LIGHTSPEED_CLIENT_SECRET host) as [secret|] eqn:Hsecret;
    [|unfold exchangeAuthCodeForTokens; rewrite Hid, Hsecret; cbn; auto].
  destruct (truthy (Some cid)) eqn:Tid;
    [|unfold exchangeAuthCodeForTokens; rewrite Hid, Hsecret, Tid; cbn; auto].
  destruct (truthy (Some secret)) eqn:Tsecret;
    [|unfold exchangeAuthCodeForTokens; rewrite Hid, Hsecret, Tid, Tsecret; cbn; auto].
  assert (Hc : credentials host cid secret).
  { repeat split; auto; intros ->; discriminate. }
  rewrite (exchangeAuthCodeForTokens_eq _ _ _ _ _ Hc). cbv zeta.
  destruct (fetch host (code_body cid secret authCode)) as [reason|status body [data|]];
    [cbn; auto | |]; destruct (ok status); try destruct (complete data); cbn; auto.
Qed.

Lemma loginWithAuthCode_inserted crypto host this authCode w :
  let w' := after (loginWithAuthCode crypto host this authCode w) in
  clock w' = clock w /\ (kept w w' \/ inserted w w').
Proof.
  unfold loginWithAuthCode. cbv beta delta [try_catch bind].
  destruct (exchangeAuthCodeForTokens_kept host authCode w) as (Hk & _).
  destruct (exchangeAuthCodeForTokens host authCode w) as [[[response|]|e] w1 ev1];
    cbn [after] in Hk; subst w1; [|cbn; unfold kept; auto|cbn; unfold kept; auto].
  pose proof (insertTokens_spec crypto this (access_token response)
                (refresh_token response) (expires_in response) w) as Hs.
  cbv zeta in Hs.
  destruct (insertTokens crypto this (access_token response) (refresh_token response)
              (expires_in response) w) as [[row|e] w1 ev2];
    cbn [result after emitted] in Hs.
  - destruct Hs as (_ & Hclk & a' & r' & n' & c1 & c2 & _ & _ & _ & _ & _ & Hrow & Htab
                    & (_ & Hvac) & _).
    cbn. split; [exact Hclk|]. right. exists row. split; [exact Htab|].
    rewrite Hrow. repeat split. exact Hvac.
  - destruct Hs as (_ & Hclk & Htab & _). cbn. split; [exact Hclk|]. left. exact Htab.
Qed.

Lemma setTokensManually_inserted crypto this a r m w :
  let w' := after (setTokensManually crypto this a r m w) in
  clock w' = clock w /\ (kept w w' \/ inserted w w').
Proof.
  unfold setTokensManually.
  destruct (blank a || blank r); [cbn; unfold kept; auto|]. run_m.
  match goal with
  | |- context [insertTokens ?c ?t ?x ?y ?z w] =>
      pose proof (insertTokens_spec c t x y z w) as Hs; cbv zeta in Hs;
      destruct (insertTokens c t x y z w) as [[row|e] w1 ev2]
  end; cbn [result after emitted] in Hs.
  - destruct Hs as (_ & Hclk & a' & r' & n' & c1 & c2 & _ & _ & _ & _ & _ & Hrow & Htab
                    & (_ & Hvac) & _).
    cbn. split; [exact Hclk|]. right. exists row. split; [exact Htab|].
    rewrite Hrow. repeat split. exact Hvac.
  - destruct Hs as (_ & Hclk & Htab & _). cbn. split; [exact Hclk|]. left. exact Htab.
Qed.

(** What each operation does to the table and the clock. *)
Lemma run_effect crypto host op w :
  let w' := after (run crypto host op w) in
  clock w <= clock w'
  /\ (table w' = table w \/ clock w' = clock w)
  /\ match op with
     | Login _ | SetManually _ _ _ => kept w w' \/ inserted w w'
     | Refresh _ | GetValidAccessToken | SchedulerTick => refreshed w w'
     | Clear => table w' = []
     | _ => kept w w'
     end.
Proof.
  destruct op as [authCode | a r m | refreshToken | | | | | | | ms];
    cbn [run]; unfold forget, bind.
  - destruct (loginWithAuthCode_inserted crypto host (new_LightspeedTokenService host) authCode w) as (H1 & H2).
    destruct (loginWithAuthCode _ _ _ _ w) as [[x|e] w1 ev]; cbn in *; repeat split; auto; lia.
  - destruct (setTokensManually_inserted crypto (new_LightspeedTokenService host)
                a r m w) as (H1 & H2).
    destruct (setTokensManually _ _ _ _ _ w) as [[x|e] w1 ev]; cbn in *; repeat split; auto; lia.
  - destruct (refreshTokens_refreshed crypto host (new_LightspeedTokenService host) refreshToken w) as (H1 & H2).
    destruct (refreshTokens _ _ _ _ w) as [[x|e] w1 ev]; cbn in *; repeat split; auto; lia.
  - destruct (getValidAccessToken_refreshed crypto host (new_LightspeedTokenService host) w) as (H1 & H2).
    destruct (getValidAccessToken _ _ _ w) as [[x|e] w1 ev]; cbn in *; repeat split; auto; lia.
  - destruct (checkAndRefreshTokens_refreshed crypto host (new_TokenScheduler host) w) as (H1 & H2).
    repeat split; auto; lia.
  - rewrite performHealthCheck_kept. unfold kept. repeat split; auto; lia.
  - rewrite getTokenStatus_eq. cbn. unfold kept. repeat split; auto; lia.
  - cbn. unfold kept. repeat split; auto; lia.
  - cbn. repeat split; auto; lia.
  - cbn. unfold kept. repeat split; auto; lia.
Qed.

(** ** Invariants of the reachable worlds *)



(** ** One row at most *)

Lemma vacant_keyed_nil w : keyed w -> vacant w = true -> table w = [].
Proof.
  intros Hk Hv. destruct (table w) as [|row rest] eqn:Ht; [reflexivity|].
  rewrite (keyed_not_vacant w row rest Hk Ht) in Hv. discriminate.
Qed.

Lemma run_keyed crypto host op w : keyed w -> keyed (after (run crypto host op w)).
Proof.
  intros Hk. destruct (run_effect crypto host op w) as (_ & _ & Heff).
  set (w' := after (run crypto host op w)) in *.
  assert (Hkept : kept w w' -> keyed w').
  { unfold kept, keyed. intros ->. exact Hk. }
  assert (Hins : inserted w w' -> keyed w').
  { unfold keyed. intros (row & -> & _ & Hid & _). apply Forall_app. split; [exact Hk|].
    constructor; [exact Hid | constructor]. }
  assert (Hrep : replaced w w' -> keyed w').
  { unfold keyed. intros (row & old & rest & Hw & -> & Hid & _).
    unfold keyed in Hk. rewrite Hw in Hk. inversion Hk as [|x l Hx Hl]; subst.
    constructor; [congruence | assumption]. }
  assert (Href : refreshed w w' -> keyed w').
  { intros [H | [[_ H] | H]]; auto. }
  destruct op; try (destruct Heff; now auto); auto.
  unfold keyed. rewrite Heff. constructor.
Qed.

Lemma run_length crypto host op w :
  keyed w ->
  (length (table w) <= 1)%nat ->
  (length (table (after (run crypto host op w))) <= 1)%nat.
Proof.
  intros Hk Hlen. destruct (run_effect crypto host op w) as (_ & _ & Heff).
  set (w' := after (run crypto host op w)) in *.
  assert (Hkept : kept w w' -> (length (table w') <= 1)%nat).
  { unfold kept. intros ->. exact Hlen. }
  assert (Hins : inserted w w' -> (length (table w') <= 1)%nat).
  { intros (row & -> & _ & _ & Hv). rewrite (vacant_keyed_nil w Hk Hv). cbn. lia. }
  assert (Hrep : replaced w w' -> (length (table w') <= 1)%nat).
  { intros (row & old & rest & Hw & -> & _). rewrite Hw in Hlen. exact Hlen. }
  assert (Href : refreshed w w' -> (length (table w') <= 1)%nat).
  { intros [H | [[He H] | H]]; auto. }
  destruct op; try (destruct Heff; now auto); auto.
Qed.

Lemma run_all_keyed crypto steps : forall w,
  keyed w -> (length (table w) <= 1)%nat ->
  keyed (run_all crypto steps w)
  /\ (length (table (run_all crypto steps w)) <= 1)%nat.
Proof.
  induction steps as [|[host op] rest IH]; intros w Hk Hlen; [auto|].
  cbn [run_all]. apply IH; [now apply run_keyed | now apply run_length].
Qed.

(** C9.  From the unconfigured state, whatever the time zone, every
    sequence of operations leaves at most one row in the table.  In the
    world it leads to: a refresh, whether asked for directly, by
    [getValidAccessToken] or by the scheduler, leaves the table,
    inserts into the empty table, or writes over the first row in
    place; a login or a manual entry leaves the table or inserts into
    the empty table (it passes the key 0, which the table refuses a
    second time); clearing empties the table, and the reads and the
    health check leave it. *)
Theorem at_most_one_row :
  forall crypto steps now zone random,
    let w := run_all crypto steps (unconfigured now zone random) in
    (length (table w) <= 1)%nat
    /\ (forall host op,
           let w' := after (run crypto host op w) in
           (length (table w') <= 1)%nat
           /\ match op with
              | Login _ | SetManually _ _ _ => kept w w' \/ (table w = [] /\ inserted w w')
              | Refresh _ | GetValidAccessToken | SchedulerTick => refreshed w w'
              | Clear => table w' = []
              | _ => kept w w'
              end).
Proof.
  intros crypto steps now zone random w.
  destruct (run_all_keyed crypto steps (unconfigured now zone random)) as (Hk & Hlen);
    [constructor | cbn; lia |]. fold w in Hk, Hlen.
  split; [exact Hlen|]. intros host op w'. split; [now apply run_length|].
  destruct (run_effect crypto host op w) as (_ & _ & Heff). fold w' in Heff.
  destruct op; auto; destruct Heff as [H|H]; auto; right;
    (split; [|exact H]); destruct H as (row & _ & _ & _ & Hv);
    now apply vacant_keyed_nil.
Qed.

(** On the sample installation, in London: after the day of
    [sample_steps], in which a login follows a manual entry, one row is
    stored, and one more login is refused by the table and leaves it. *)
Lemma at_most_one_row_witness :
  let host := Sample.host_with Sample.rotating in
  let w := run_all Sample.library sample_steps
             (unconfigured 1700000000000 Sample.london Sample.random) in
  let w' := after (run Sample.library host (Login "code-3") w) in
  length (table w) = 1%nat
  /\ (length (table w') <= 1)%nat
  /\ (kept w w' \/ (table w = [] /\ inserted w w'))
  /\ table w' = table w.
Proof.
  intros host w w'.
  destruct (at_most_one_row Sample.library sample_steps
              1700000000000 Sample.london Sample.random) as (_ & H).
  destruct (H host (Login "code-3")) as (H1 & H2).
  split; [vm_compute; reflexivity|]. split; [exact H1|]. split; [exact H2|].
  vm_compute. reflexivity.
Defined.

(** ** A successful refresh *)

(** [encrypt] returns only under a key of 32 bytes, and then returns
    the ciphertext of the vector it drew. *)
Lemma encrypt_Return_inv crypto host text w c :
  result (encrypt crypto (new_LightspeedTokenService host) text w) = Return c ->
  exists key, key_of host key /\ c = ciphertext crypto key (next_iv w) text.
Proof.
  unfold encrypt. cbn [ENCRYPTION_KEY new_LightspeedTokenService ALGORITHM].
  destruct (TOKEN_ENCRYPTION_KEY host) as [key|] eqn:Hkey; [|discriminate].
  destruct (truthy (Some key)); cbn [negb]; [|discriminate].
  unfold bind, randomBytes, lift, ret, createCipheriv.
  destruct (length (Buffer.from_hex key) =? 32)%nat eqn:Hlen; cbn [negb]; [|discriminate].
  fold (next_iv w). rewrite next_iv_length.
  intros H.
  assert (H' : Return (ciphertext crypto key (next_iv w) text) = Return c) by exact H.
  apply Return_inj in H'. exists key. split.
  - split; [exact Hkey | now apply Nat.eqb_eq].
  - now subst c.
Qed.

Lemma decrypt_encrypted crypto host text w c :
  faithful crypto ->
  result (encrypt crypto (new_LightspeedTokenService host) text w) = Return c ->
  decrypt crypto (new_LightspeedTokenService host) c = Return text.
Proof.
  intros Hf H. apply encrypt_Return_inv in H. destruct H as (key & Hkey & ->).
  apply decrypt_ciphertext; auto using next_iv_length.
Qed.





Lemma sample_stale_reachable : reachable Sample.library Sample.stale.
Proof.
  unfold Sample.stale, Sample.configured. cbn [run_all].
  apply reachable_step. apply reachable_step. apply reachable_start.
Qed.


(** ** The refresh token that is sent *)

Lemma refreshTokens_requests crypto host this cid secret text w :
  credentials host cid secret ->
  requests (emitted (refreshTokens crypto host this text w)) = [refresh_body cid secret text].
Proof.
  intros Hc. destruct (refreshTokens_spec crypto host this text w) as (_ & _ & H & _).
  now apply H.
Qed.

(** C1 (what the code does).  With credentials, a first row and a
    refresh that is due: the one request the scheduler's task posts
    carries the text stored in the row's [refreshToken] column, as it is
    stored; the one [getValidAccessToken] posts carries what [decrypt]
    makes of that text. *)
Theorem scheduler_refresh_sends_the_stored_text :
  forall crypto host cid secret w tokens rest,
    credentials host cid secret ->
    table w = tokens :: rest ->
    due (new_LightspeedTokenService host) tokens (clock w) = true ->
    requests (emitted (checkAndRefreshTokens crypto host (new_TokenScheduler host) w))
    = [refresh_body cid secret (refreshToken tokens)]
    /\ forall plain,
         decrypt crypto (new_LightspeedTokenService host) (refreshToken tokens) = Return plain ->
         requests (emitted (getValidAccessToken crypto host (new_LightspeedTokenService host) w))
         = [refresh_body cid secret plain].
Proof.
  intros crypto host cid secret w tokens rest Hc Htable Hdue. split.
  - unfold checkAndRefreshTokens. run_m.
    cbv [get_lastTokenCheckHadTokens set_lastTokenCheckHadTokens].
    rewrite Htable. cbn [hd_error tokenService new_TokenScheduler].
    destruct (lastTokenCheckHadTokens w); cbn [negb]; rewrite needsRefresh_eq;
      cbn [clock with_lastTokenCheckHadTokens]; rewrite Hdue;
      match goal with
      | |- context [refreshTokens ?c ?h ?t ?r ?w0] =>
          pose proof (refreshTokens_requests c h t cid secret r w0 Hc) as Hreq;
          destruct (refreshTokens c h t r w0) as [[[row|]|e] w1 ev1];
          cbn [emitted] in Hreq
      end;
      rewrite ?getTokenStatus_eq; try destruct (hd_error (table w1)); cbn;
      rewrite ?requests_app, Hreq; reflexivity.
  - intros plain Hplain. unfold getValidAccessToken. run_m.
    rewrite Htable. cbn [hd_error]. rewrite needsRefresh_eq, Hdue, Hplain.
    pose proof (refreshTokens_requests crypto host (new_LightspeedTokenService host)
                  cid secret plain w Hc) as Hreq.
    destruct (refreshTokens crypto host (new_LightspeedTokenService host) plain w)
      as [[[row|]|e] w1 ev1]; cbn [emitted] in Hreq;
      try destruct (decrypt crypto (new_LightspeedTokenService host) (accessToken row));
      cbn; rewrite ?requests_app, Hreq; reflexivity.
Qed.

Lemma scheduler_refresh_sends_the_stored_text_witness :
  exists tokens rest,
    table Sample.stale = tokens :: rest
    /\ decrypt Sample.library Sample.service (refreshToken tokens)
       = Return "refresh-token-number-one-0123456789"
    /\ requests (emitted (checkAndRefreshTokens Sample.library
                            (Sample.host_with Sample.rotating)
                            (new_TokenScheduler (Sample.host_with Sample.rotating))
                            Sample.stale))
       = [refresh_body "client" "secret" (refreshToken tokens)]
    /\ forall plain,
         decrypt Sample.library
           (new_LightspeedTokenService (Sample.host_with Sample.rotating))
           (refreshToken tokens) = Return plain ->
         requests (emitted (getValidAccessToken Sample.library
                              (Sample.host_with Sample.rotating)
                              (new_LightspeedTokenService (Sample.host_with Sample.rotating))
                              Sample.stale))
         = [refresh_body "client" "secret" plain].
Proof.
  eexists. eexists. split; [vm_compute; reflexivity|].
  split; [vm_compute; reflexivity|].
  refine (scheduler_refresh_sends_the_stored_text Sample.library
            (Sample.host_with Sample.rotating) "client" "secret" Sample.stale _ _
            (sample_credentials _) _ _); vm_compute; reflexivity.
Defined.

(** ** The default validity *)

(** C7 (what the code does).  When a success answer has both tokens and
    no [expires_in]: the authorization-code exchange returns 3600 in its
    place; the refresh exchange returns the answer as it came, without
    one; and [refreshTokens] then returns none and leaves the table as
    it was, so the pair the provider just issued is not stored. *)
Theorem requestTokenRefresh_keeps_expires_in_absent :
  forall crypto host this cid secret text status body data w,
    credentials host cid secret ->
    ok status = true ->
    complete data = true ->
    expires_in data = None ->
    (fetch host (code_body cid secret text) = HttpResponse status body (Some data) ->
     result (exchangeAuthCodeForTokens host text w)
     = Return (Some {| access_token := access_token data;
                       refresh_token := refresh_token data;
                       expires_in := Some 3600 |}))
    /\ (fetch host (refresh_body cid secret text) = HttpResponse status body (Some data) ->
        result (requestTokenRefresh host text w) = Return (Some data)
        /\ result (refreshTokens crypto host this text w) = Return None
        /\ table (after (refreshTokens crypto host this text w)) = table w).
Proof.
  intros crypto host this cid secret text status body data w Hc Hok Hd He.
  split; intros Hf.
  - rewrite (exchangeAuthCodeForTokens_eq _ _ _ _ _ Hc). cbv zeta.
    rewrite Hf, Hok, Hd. unfold expires_in_or_hour. rewrite He. reflexivity.
  - split.
    + rewrite (requestTokenRefresh_eq _ _ _ _ _ Hc). cbv zeta.
      rewrite Hf, Hok. reflexivity.
    + destruct (refreshTokens_spec crypto host this text w) as (_ & _ & _ & H).
      destruct (result (refreshTokens crypto host this text w)) as [[row|]|e];
        [exfalso | | contradiction].
      * destruct H as (cid' & secret' & status' & body' & data' & a' & r' & n' & c1 & c2
                       & Hc' & Hf' & _ & _ & _ & (Hn & _) & _).
        destruct Hc as (H1 & H2 & _), Hc' as (H1' & H2' & _).
        assert (cid' = cid) by congruence. assert (secret' = secret) by congruence.
        subst. rewrite Hf in Hf'. injection Hf' as _ _ <-. congruence.
      * split; [reflexivity | apply H].
Qed.

Lemma requestTokenRefresh_keeps_expires_in_absent_witness :
  let host := Sample.host_with Sample.timeless in
  let text := "refresh-token-number-one-0123456789" in
  let data := {| access_token := Some "access-token-number-two-0123456789";
                 refresh_token := Some "refresh-token-number-two-0123456789";
                 expires_in := None |} in
  result (exchangeAuthCodeForTokens host text Sample.stale)
  = Return (Some {| access_token := access_token data;
                    refresh_token := refresh_token data;
                    expires_in := Some 3600 |})
  /\ result (requestTokenRefresh host text Sample.stale) = Return (Some data)
  /\ result (refreshTokens Sample.library host Sample.service text Sample.stale)
     = Return None
  /\ table (after (refreshTokens Sample.library host Sample.service text Sample.stale))
     = table Sample.stale.
Proof.
  cbv zeta.
  destruct (requestTokenRefresh_keeps_expires_in_absent Sample.library
              (Sample.host_with Sample.timeless) Sample.service "client" "secret"
              "refresh-token-number-one-0123456789" 200 "{...}"
              {| access_token := Some "access-token-number-two-0123456789";
                 refresh_token := Some "refresh-token-number-two-0123456789";
                 expires_in := None |}
              Sample.stale (sample_credentials _) eq_refl eq_refl eq_refl)
    as (Hcode & Hrefresh).
  split; [exact (Hcode eq_refl) | exact (Hrefresh eq_refl)].
Defined.

(** ** The status *)

(** C10.  [getTokenStatus] and the health check read the clock and the
    expiry and update instants of the first row, and nothing else: two
    runs at one instant over tables whose first rows agree on those two
    fields, under any two hosts (any key or none) and whatever text the
    token columns hold, return the same status and print the same
    lines; neither throws, and the world is left as it was. *)
Theorem status_ignores_key_and_ciphertexts :
  forall host1 host2 w1 w2,
    clock w1 = clock w2 ->
    dates w1 = dates w2 ->
    let service1 := new_LightspeedTokenService host1 in
    let service2 := new_LightspeedTokenService host2 in
    (exists status,
        getTokenStatus service1 w1 = Ran (Return status) w1 []
        /\ getTokenStatus service2 w2 = Ran (Return status) w2 [])
    /\ (exists lines,
           performHealthCheck (new_TokenScheduler host1) w1 = Ran (Return tt) w1 lines
           /\ performHealthCheck (new_TokenScheduler host2) w2 = Ran (Return tt) w2 lines).
Proof.
  intros host1 host2 w1 w2 Hclock Hdates service1 service2.
  assert (Hs : option_map (fun tokens => status_of service1 tokens (clock w1))
                 (hd_error (table w1))
               = option_map (fun tokens => status_of service2 tokens (clock w2))
                   (hd_error (table w2))).
  { unfold dates in Hdates. rewrite Hclock.
    destruct (hd_error (table w1)) as [row1|], (hd_error (table w2)) as [row2|];
      cbn in Hdates |- *; try discriminate; [|reflexivity].
    injection Hdates as He Hu. unfold status_of, due. now rewrite He, Hu. }
  split.
  - eexists. rewrite !getTokenStatus_eq. rewrite Hs. split; reflexivity.
  - unfold performHealthCheck. cbv [try_catch bind].
    cbn [tokenService new_TokenScheduler]. fold service1 service2.
    rewrite !getTokenStatus_eq, Hs.
    destruct (option_map _ (hd_error (table w2))) as [status|].
    + cbv [log emit error ret]. cbn [app].
      destruct (_ && _); destruct (negb _); eexists; split; reflexivity.
    + eexists; split; reflexivity.
Qed.

Lemma status_ignores_key_and_ciphertexts_witness :
  clock Sample.stale = clock garbled /\ dates Sample.stale = dates garbled /\
  (exists status,
      getTokenStatus (new_LightspeedTokenService (Sample.host_with Sample.rotating))
        Sample.stale = Ran (Return status) Sample.stale []
      /\ getTokenStatus (new_LightspeedTokenService keyless) garbled
         = Ran (Return status) garbled [])
  /\ (exists lines,
         performHealthCheck (new_TokenScheduler (Sample.host_with Sample.rotating))
           Sample.stale = Ran (Return tt) Sample.stale lines
         /\ performHealthCheck (new_TokenScheduler keyless) garbled
            = Ran (Return tt) garbled lines).
Proof.
  split; [reflexivity|]. split; [vm_compute; reflexivity|].
  exact (status_ignores_key_and_ciphertexts (Sample.host_with Sample.rotating) keyless
           Sample.stale garbled eq_refl eq_refl).
Defined.

(** ** Missing client credentials, and the login *)

Lemma configured_credentials host :
  has_credentials host = true -> exists cid secret, credentials host cid secret.
Proof.
  unfold has_credentials, credentials.
  destruct (LIGHTSPEED_CLIENT_ID host) as [cid|]; [|discriminate].
  destruct (LIGHTSPEED_CLIENT_SECRET host) as [secret|];
    [|rewrite andb_false_r; discriminate].
  intros H. apply andb_true_iff in H. destruct H as (H1 & H2).
  exists cid, secret. repeat split; intros ->; discriminate.
Qed.

Lemma unconfigured_exchanges_throw host text w :
  has_credentials host = false ->
  requestTokenRefresh host text w
  = Ran (Throw (Error "Lightspeed client credentials not configured")) w []
  /\ exchangeAuthCodeForTokens host text w
     = Ran (Throw (Error "LIGHTSPEED_CLIENT_ID and LIGHTSPEED_CLIENT_SECRET environment variables are required")) w [].
Proof.
  unfold has_credentials, requestTokenRefresh, exchangeAuthCodeForTokens.
  destruct (LIGHTSPEED_CLIENT_ID host) as [cid|]; [|split; reflexivity].
  destruct (LIGHTSPEED_CLIENT_SECRET host) as [secret|]; [|split; reflexivity].
  intros H. apply andb_false_iff in H.
  destruct H as [H|H]; rewrite H; cbn [negb orb]; [split; reflexivity|].
  rewrite orb_true_r. split; reflexivity.
Qed.


Lemma expires_in_or_hour_eq data :
  expires_in_or_hour data = Some (seconds_or_hour data).
Proof.
  unfold expires_in_or_hour, seconds_or_hour, truthy_num.
  destruct (expires_in data) as [n|]; [|reflexivity]. destruct (n =? 0); reflexivity.
Qed.

Ltac login_none o Hright :=
  subst o; cbn [result after emitted];
  split; [reflexivity|]; split; [right; apply Hright; reflexivity | cbn; repeat split; auto].

Lemma loginWithAuthCode_spec crypto host this authCode w :
  let o := loginWithAuthCode crypto host this authCode w in
  clock (after o) = clock w
  /\ (has_credentials host = false /\ requests (emitted o) = []
      \/ exists cid secret,
           credentials host cid secret
           /\ requests (emitted o) = [code_body cid secret authCode])
  /\ match result o with
     | Throw _ => False
     | Return None =>
         table (after o) = table w /\ LocalTZA (after o) = LocalTZA w
         /\ writes (emitted o) = []
     | Return (Some row) =>
         exists cid secret status body data a' r' c1 c2,
           credentials host cid secret
           /\ fetch host (code_body cid secret authCode)
              = HttpResponse status body (Some data)
           /\ ok status = true
           /\ complete data = true
           /\ access_token data = Some a' /\ refresh_token data = Some r'
           /\ result (encrypt crypto this a' w) = Return c1
           /\ result (encrypt crypto this r' (after (encrypt crypto this a' w))) = Return c2
           /\ row = fresh_row c1 c2 (moved w (seconds_or_hour data)) (clock w)
           /\ table (after o) = (table w ++ [row])%list
           /\ writes (emitted o) = [Created row]
           /\ requests (emitted o) = [code_body cid secret authCode]
           /\ representable (moved w (seconds_or_hour data)) = true
           /\ vacant w = true
     end.
Proof.
  intros o. assert (Ho : o = loginWithAuthCode crypto host this authCode w) by reflexivity.
  clearbody o. cbv beta delta [loginWithAuthCode try_catch bind] in Ho.
  destruct (has_credentials host) eqn:Hconf.
  2:{ destruct (unconfigured_exchanges_throw host authCode w Hconf) as (_ & H).
      rewrite H in Ho. subst o. cbn. auto. }
  destruct (configured_credentials host Hconf) as (cid & secret & Hc).
  rewrite (exchangeAuthCodeForTokens_eq _ _ _ _ _ Hc) in Ho. cbv zeta in Ho.
  assert (Hright : forall events : list Event,
             requests events = [code_body cid secret authCode] ->
             exists cid secret,
                 credentials host cid secret
                 /\ requests events = [code_body cid secret authCode]).
  { intros events H. exists cid, secret. split; [exact Hc | exact H]. }
  destruct (fetch host (code_body cid secret authCode))
    as [reason|status body json] eqn:Hfetch.
  { login_none o Hright. }
  destruct (ok status) eqn:Hok; [|login_none o Hright].
  destruct json as [data|]; [|login_none o Hright].
  destruct (complete data) eqn:Hcomplete; [|login_none o Hright].
  cbn [access_token refresh_token expires_in] in Ho.
  rewrite expires_in_or_hour_eq in Ho.
  pose proof (insertTokens_spec crypto this (access_token data) (refresh_token data)
                (Some (seconds_or_hour data)) w) as Hs. cbv zeta in Hs.
  destruct (insertTokens crypto this (access_token data) (refresh_token data)
              (Some (seconds_or_hour data)) w) as [[row|e] w1 ev1];
    cbn [result after emitted] in Hs.
  - destruct Hs as (Hreq & Hclk & a' & r' & n' & c1 & c2 & Ha & Hr & Hn & H1 & H2
                    & Hrow & Htab & (Hrep & Hvac) & Hwr).
    injection Hn as <-.
    subst o. cbn [result after emitted].
    split; [exact Hclk|].
    split; [right; apply Hright; cbn; rewrite !requests_app, Hreq; reflexivity|].
    exists cid, secret, status, body, data, a', r', c1, c2.
    split; [exact Hc|]. cbn. rewrite !writes_app, !requests_app, Hwr, Hreq.
    repeat split; auto.
  - destruct Hs as (Hreq & Hclk & Htab & Hser & Hwr).
    subst o. cbn [result after emitted].
    split; [exact Hclk|]. split.
    + right. apply Hright. cbn. rewrite !requests_app, Hreq. reflexivity.
    + cbn. rewrite !writes_app, Hwr. repeat split; auto.
Qed.

(** ** What the console shows of the tokens *)











(* ================================================================== *)
(** * Further properties of the code *)
(* ================================================================== *)

(** ** Keys and ciphertexts that are refused *)

(** X1.  [decrypt] returns a text exactly when the configured key is
    the hexadecimal text of 32 bytes, the ciphertext has a colon, the
    part before the first colon is the hexadecimal text of 16 bytes,
    and the cipher accepts the part between the first and the second
    colon; the text returned is then the cipher's output.  In every
    other case it throws. *)
Theorem decrypt_returns_only_well_formed :
  forall crypto host text plain,
    decrypt crypto (new_LightspeedTokenService host) text = Return plain
    <->
    exists key ivHex payload others bytes,
      key_of host key
      /\ split ":" text = ivHex :: payload :: others
      /\ length (Buffer.from_hex ivHex) = 16%nat
      /\ cbc_decrypt crypto (Buffer.from_hex key) (Buffer.from_hex ivHex)
           (Buffer.from_hex payload) = Some bytes
      /\ plain = string_of_list_byte bytes.
Proof.
  intros crypto host text plain. unfold decrypt.
  cbn [ENCRYPTION_KEY new_LightspeedTokenService ALGORITHM]. split.
  - destruct (TOKEN_ENCRYPTION_KEY host) as [key|] eqn:Hkey; [|discriminate].
    destruct (truthy (Some key)); cbn [negb]; [|discriminate].
    unfold createDecipheriv.
    change (negb ("aes-256-cbc" =? "aes-256-cbc")%string) with false. cbv iota.
    destruct (split ":" text) as [|ivHex [|payload others]] eqn:Hsplit.
    + destruct (split_not_nil _ _ Hsplit).
    + cbn [hd nth_error].
      destruct (length (Buffer.from_hex ivHex) =? 16)%nat; cbn [negb]; [|discriminate].
      destruct (length (Buffer.from_hex key) =? 32)%nat; discriminate.
    + cbn [hd nth_error].
      destruct (length (Buffer.from_hex ivHex) =? 16)%nat eqn:Hiv; cbn [negb]; [|discriminate].
      destruct (length (Buffer.from_hex key) =? 32)%nat eqn:Hlen; cbn [negb]; [|discriminate].
      destruct (cbc_decrypt crypto (Buffer.from_hex key) (Buffer.from_hex ivHex)
                  (Buffer.from_hex payload)) as [bytes|] eqn:Hdec; [|discriminate].
      intros H. apply Return_inj in H. subst plain.
      exists key, ivHex, payload, others, bytes.
      repeat split; auto; now apply Nat.eqb_eq.
  - intros (key & ivHex & payload & others & bytes & Hkey & Hsplit & Hiv & Hdec & ->).
    pose proof (key_of_truthy _ _ Hkey) as Ht. destruct Hkey as (Hkey & Hlen).
    rewrite Hkey, Ht, Hsplit. cbn [negb hd nth_error]. unfold createDecipheriv.
    change (negb ("aes-256-cbc" =? "aes-256-cbc")%string) with false. cbv iota.
    rewrite Hlen, Hiv. cbn [Nat.eqb negb]. now rewrite Hdec.
Qed.

(** X2.  Without a key, or with an empty one, [encrypt] and [decrypt]
    throw the same configuration error, and [encrypt] has drawn no
    random byte; with a key that is not the text of 32 bytes,
    [encrypt] throws the length it found after it drew its vector, and
    [decrypt] is refused by the cipher, whatever the text: for its
    vector when the part before the first colon is not the text of 16
    bytes, and for the length of its key when it is. *)
Theorem bad_keys_are_refused :
  forall crypto host text w,
    let this := new_LightspeedTokenService host in
    (truthy (TOKEN_ENCRYPTION_KEY host) = false ->
     encrypt crypto this text w
     = Ran (Throw (Error "TOKEN_ENCRYPTION_KEY environment variable is required")) w []
     /\ decrypt crypto this text
        = Throw (Error "TOKEN_ENCRYPTION_KEY environment variable is required"))
    /\ (forall key,
           TOKEN_ENCRYPTION_KEY host = Some key ->
           key <> EmptyString ->
           length (Buffer.from_hex key) <> 32%nat ->
           encrypt crypto this text w
           = Ran (Throw (InvalidKeyLength (length (Buffer.from_hex key))))
               (with_drawn w (drawn w + 16)) []
           /\ decrypt crypto this text
              = Throw (CryptoError
                         (if (length (Buffer.from_hex (hd EmptyString (split ":" text)))
                              =? 16)%nat
                          then "Invalid key length"
                          else "Invalid initialization vector"))).
Proof.
  intros crypto host text w this. subst this. unfold encrypt, decrypt.
  cbn [ENCRYPTION_KEY new_LightspeedTokenService ALGORITHM]. split.
  - intros Hno. destruct (TOKEN_ENCRYPTION_KEY host) as [key|]; [|split; reflexivity].
    rewrite Hno. split; reflexivity.
  - intros key -> Hne Hlen. rewrite (truthy_nonempty _ Hne). cbn [negb].
    apply Nat.eqb_neq in Hlen. unfold createDecipheriv.
    change (negb ("aes-256-cbc" =? "aes-256-cbc")%string) with false. cbv iota.
    unfold bind, randomBytes. rewrite Hlen. split; [reflexivity|].
    destruct (length (Buffer.from_hex (hd EmptyString (split ":" text))) =? 16)%nat;
      reflexivity.
Qed.

(** The stored text [zz:zz:zz] under the key [abcd], which is the text
    of 2 bytes, is refused for its vector; a text with a vector of 16
    bytes is refused for the length of the key. *)
Lemma bad_keys_are_refused_witness :
  let host := {| TOKEN_ENCRYPTION_KEY := Some "abcd";
                 LIGHTSPEED_CLIENT_ID := None;
                 LIGHTSPEED_CLIENT_SECRET := None;
                 fetch := Sample.rejecting |} in
  let this := new_LightspeedTokenService host in
  decrypt Sample.library this "zz:zz:zz"
  = Throw (CryptoError "Invalid initialization vector")
  /\ decrypt Sample.library this "000102030405060708090a0b0c0d0e0f:00"
     = Throw (CryptoError "Invalid key length")
  /\ encrypt Sample.library this "token" Sample.start
     = Ran (Throw (InvalidKeyLength 2)) (with_drawn Sample.start 16) [].
Proof.
  intros host this.
  assert (Hne : "abcd" <> EmptyString) by discriminate.
  assert (Hlen : length (Buffer.from_hex "abcd") <> 32%nat) by (vm_compute; discriminate).
  split; [|split].
  - exact (proj2 (proj2 (bad_keys_are_refused Sample.library host "zz:zz:zz" Sample.start)
                    "abcd" eq_refl Hne Hlen)).
  - exact (proj2 (proj2 (bad_keys_are_refused Sample.library host
                           "000102030405060708090a0b0c0d0e0f:00" Sample.start)
                    "abcd" eq_refl Hne Hlen)).
  - exact (proj1 (proj2 (bad_keys_are_refused Sample.library host "token" Sample.start)
                    "abcd" eq_refl Hne Hlen)).
Defined.

(** ** The scheduler's memory of the last tick *)

Lemma steady_bind {A B} (m : M A) (k : A -> M B) :
  steady m -> (forall a, steady (k a)) -> steady (bind m k).
Proof.
  intros Hm Hk w. unfold bind. specialize (Hm w).
  destruct (m w) as [[a|e] w1 ev1]; cbn [after] in *; [|exact Hm].
  specialize (Hk a w1). destruct (k a w1) as [r w2 ev2]; cbn [after] in *. congruence.
Qed.

Lemma steady_try_catch {A} (body : M A) (handler : Exn -> M A) :
  steady body -> (forall e, steady (handler e)) -> steady (try_catch body handler).
Proof.
  intros Hm Hk w. unfold try_catch. specialize (Hm w).
  destruct (body w) as [[a|e] w1 ev1]; cbn [after] in *; [exact Hm|].
  specialize (Hk e w1). destruct (handler e w1) as [r w2 ev2]; cbn [after] in *. congruence.
Qed.

Lemma steady_pure {A} (f : World -> Result A) (g : World -> list Event) :
  steady (fun w => Ran (f w) w (g w)).
Proof. intros w. reflexivity. Qed.

Ltac steady_step :=
  match goal with
  | |- steady (bind _ _) => apply steady_bind; [|intros]
  | |- steady (try_catch _ _) => apply steady_try_catch; [|intros]
  | |- steady (if ?b then _ else _) => destruct b
  | |- steady (match ?x with _ => _ end) => destruct x
  | |- steady _ => solve [intros ?; reflexivity]
  | |- steady _ => assumption
  end.

Lemma steady_create k a r e u : steady (db.create k a r e u).
Proof.
  intros w. unfold db.create. destruct e; [|reflexivity].
  destruct (existsb _ (table w)); reflexivity.
Qed.

Lemma steady_update k a r e u : steady (db.update k a r e u).
Proof.
  intros w. unfold db.update. destruct e; [|reflexivity].
  destruct (db.rewrite_row _ _ _) as [[new rows]|]; reflexivity.
Qed.

Lemma steady_post host body : steady (post host body).
Proof. intros w. unfold post. destruct (fetch host body); reflexivity. Qed.

Ltac steady :=
  repeat first [apply steady_create | apply steady_update | apply steady_post
               | steady_step].

Lemma steady_encrypt crypto this text : steady (encrypt crypto this text).
Proof. unfold encrypt. steady. Qed.

Lemma steady_insertTokens crypto this a r n : steady (insertTokens crypto this a r n).
Proof.
  unfold insertTokens, defined, toISOString, setSeconds_plus.
  repeat first [apply steady_encrypt | apply steady_create | steady_step].
Qed.

Lemma steady_updateTokens crypto this k a r n : steady (updateTokens crypto this k a r n).
Proof.
  unfold updateTokens, defined, toISOString, setSeconds_plus.
  repeat first [apply steady_encrypt | apply steady_update | steady_step].
Qed.

Lemma steady_requestTokenRefresh host text : steady (requestTokenRefresh host text).
Proof.
  unfold requestTokenRefresh, defined, response_json. steady.
Qed.

Lemma steady_refreshTokens crypto host this text :
  steady (refreshTokens crypto host this text).
Proof.
  unfold refreshTokens, getLatestTokens.
  repeat first [apply steady_requestTokenRefresh | apply steady_insertTokens
               | apply steady_updateTokens | steady_step].
Qed.

Lemma steady_getTokenStatus this : steady (getTokenStatus this).
Proof. intros w. now rewrite getTokenStatus_eq. Qed.

Lemma tick_on_empty crypto host this w :
  table w = [] ->
  checkAndRefreshTokens crypto host this w
  = if lastTokenCheckHadTokens w
    then Ran (Return tt) (with_lastTokenCheckHadTokens w false)
           [console_log [Text "🔍 Tokens were removed - service is now waiting for new tokens"];
            console_log [Text "💡 To reconfigure tokens, use: bun run tokens login <authorization_code>"]]
    else Ran (Return tt) w [].
Proof.
  intros Htable. unfold checkAndRefreshTokens. run_m.
  cbv [get_lastTokenCheckHadTokens set_lastTokenCheckHadTokens].
  rewrite Htable. cbn [hd_error]. destruct (lastTokenCheckHadTokens w); reflexivity.
Qed.

(** X3.  A tick of the refresh task on an empty table returns
    normally and writes nothing; it prints the two lines that say the
    tokens were removed exactly when the tick before had found a row,
    and forgets that; the tick after it, the table still empty, prints
    nothing at all. *)
Theorem tick_without_tokens_notices_once :
  forall crypto host w,
    table w = [] ->
    let this := new_TokenScheduler host in
    let o := checkAndRefreshTokens crypto host this w in
    result o = Return tt
    /\ emitted o
       = (if lastTokenCheckHadTokens w
          then [console_log [Text "🔍 Tokens were removed - service is now waiting for new tokens"];
                console_log [Text "💡 To reconfigure tokens, use: bun run tokens login <authorization_code>"]]
          else [])
    /\ table (after o) = []
    /\ lastTokenCheckHadTokens (after o) = false
    /\ checkAndRefreshTokens crypto host this (after o) = Ran (Return tt) (after o) [].
Proof.
  intros crypto host w Htable this o. subst o.
  rewrite (tick_on_empty _ _ _ _ Htable).
  destruct (lastTokenCheckHadTokens w) eqn:Hflag; cbn [result emitted after];
    repeat split; auto.
  - now rewrite tick_on_empty.
  - rewrite (tick_on_empty _ _ _ _ Htable), Hflag. reflexivity.
Qed.

Lemma tick_without_tokens_notices_once_witness :
  let host := Sample.host_with Sample.rotating in
  let this := new_TokenScheduler host in
  let o := checkAndRefreshTokens Sample.library host this Example.emptied in
  table Example.emptied = []
  /\ result o = Return tt
  /\ emitted o
     = (if lastTokenCheckHadTokens Example.emptied
        then [console_log [Text "🔍 Tokens were removed - service is now waiting for new tokens"];
              console_log [Text "💡 To reconfigure tokens, use: bun run tokens login <authorization_code>"]]
        else [])
  /\ table (after o) = []
  /\ lastTokenCheckHadTokens (after o) = false
  /\ checkAndRefreshTokens Sample.library host this (after o) = Ran (Return tt) (after o) [].
Proof.
  split; [reflexivity|].
  exact (tick_without_tokens_notices_once Sample.library
           (Sample.host_with Sample.rotating) Example.emptied eq_refl).
Defined.

Lemma tick_with_flag_set crypto host w :
  table w <> [] ->
  lastTokenCheckHadTokens w = true ->
  let o := checkAndRefreshTokens crypto host (new_TokenScheduler host) w in
  result o = Return tt /\ lastTokenCheckHadTokens (after o) = true.
Proof.
  intros Htable Hflag o. subst o.
  unfold checkAndRefreshTokens. run_m.
  cbv [get_lastTokenCheckHadTokens set_lastTokenCheckHadTokens].
  destruct (table w) as [|tokens rest]; [contradiction|]. cbn [hd_error].
  rewrite Hflag. cbn [negb]. rewrite needsRefresh_eq.
  destruct (due _ tokens (clock w)); [|cbn; auto].
  pose proof (steady_refreshTokens crypto host
                (tokenService (new_TokenScheduler host)) (refreshToken tokens) w) as Hs.
  pose proof (refreshTokens_spec crypto host
                (tokenService (new_TokenScheduler host)) (refreshToken tokens) w)
    as (_ & _ & _ & Hres).
  destruct (refreshTokens crypto host (tokenService (new_TokenScheduler host))
              (refreshToken tokens) w) as [[[row|]|e] w1 ev1];
    cbn [after result] in Hs, Hres; [| |contradiction].
  - rewrite getTokenStatus_eq. destruct (hd_error (table w1)); cbn; split; congruence.
  - cbn. split; congruence.
Qed.

Lemma tick_with_flag_unset crypto host w :
  table w <> [] ->
  lastTokenCheckHadTokens w = false ->
  checkAndRefreshTokens crypto host (new_TokenScheduler host) w
  = match checkAndRefreshTokens crypto host (new_TokenScheduler host)
            (with_lastTokenCheckHadTokens w true) with
    | Ran r w' events =>
        Ran r w'
          (console_log [Text "🎉 Tokens detected! Automatic token management is now active"]
           :: events)
    end.
Proof.
  intros Htable Hflag.
  unfold checkAndRefreshTokens. run_m.
  cbv [get_lastTokenCheckHadTokens set_lastTokenCheckHadTokens].
  change (table (with_lastTokenCheckHadTokens w true)) with (table w).
  destruct (table w) as [|tokens rest]; [contradiction|]. cbn [hd_error]. cbv beta.
  change (lastTokenCheckHadTokens (with_lastTokenCheckHadTokens w true)) with true.
  rewrite Hflag. cbn [negb].
  destruct (needsRefresh _ tokens (with_lastTokenCheckHadTokens w true))
    as [[[]|e] w1 ev1]; [| reflexivity | reflexivity].
  destruct (refreshTokens crypto host _ (refreshToken tokens) w1) as [[[row|]|e] w2 ev2];
    [| reflexivity | reflexivity].
  destruct (getTokenStatus _ w2) as [[[st|]|e] w3 ev3]; reflexivity.
Qed.

(** X4.  A tick on a table with a row returns normally and leaves the
    flag set; when the tick before had found no row it first prints
    that tokens were detected, and then does exactly what a tick does
    that had found one. *)
Theorem tick_with_tokens_detects_once :
  forall crypto host w,
    table w <> [] ->
    let this := new_TokenScheduler host in
    let o := checkAndRefreshTokens crypto host this w in
    result o = Return tt
    /\ lastTokenCheckHadTokens (after o) = true
    /\ (lastTokenCheckHadTokens w = false ->
        let o' := checkAndRefreshTokens crypto host this
                    (with_lastTokenCheckHadTokens w true) in
        emitted o
        = console_log [Text "🎉 Tokens detected! Automatic token management is now active"]
          :: emitted o'
        /\ after o = after o').
Proof.
  intros crypto host w Htable this o. subst o this.
  destruct (lastTokenCheckHadTokens w) eqn:Hflag.
  - destruct (tick_with_flag_set crypto host w Htable Hflag) as (H1 & H2).
    repeat split; auto; discriminate.
  - rewrite (tick_with_flag_unset _ _ _ Htable Hflag).
    destruct (tick_with_flag_set crypto host (with_lastTokenCheckHadTokens w true))
      as (H1 & H2); [exact Htable | reflexivity |].
    destruct (checkAndRefreshTokens crypto host (new_TokenScheduler host)
                (with_lastTokenCheckHadTokens w true)) as [r w' ev].
    cbn in *. auto.
Qed.

Lemma tick_with_tokens_detects_once_witness :
  let host := Sample.host_with Sample.rotating in
  let this := new_TokenScheduler host in
  let o := checkAndRefreshTokens Sample.library host this Sample.stale in
  table Sample.stale <> []
  /\ result o = Return tt
  /\ lastTokenCheckHadTokens (after o) = true
  /\ (lastTokenCheckHadTokens Sample.stale = false ->
      let o' := checkAndRefreshTokens Sample.library host this
                  (with_lastTokenCheckHadTokens Sample.stale true) in
      emitted o
      = console_log [Text "🎉 Tokens detected! Automatic token management is now active"]
        :: emitted o'
      /\ after o = after o').
Proof.
  assert (H : table Sample.stale <> []) by (vm_compute; discriminate).
  split; [exact H|].
  exact (tick_with_tokens_detects_once Sample.library
           (Sample.host_with Sample.rotating) Sample.stale H).
Defined.

(** ** The status and the two window tests *)

Lemma minutes_floor (e now k : Z) :
  k <= (e - now) / (1000 * 60) <-> k * 60000 <= e - now.
Proof.
  change (1000 * 60) with 60000. split; intros H.
  - pose proof (Z.mul_div_le (e - now) 60000 ltac:(lia)). nia.
  - apply Z.div_le_lower_bound; lia.
Qed.

(** The status computed from a row, field against field. *)
Lemma status_of_facts host tokens now :
  let status := status_of (new_LightspeedTokenService host) tokens now in
  0 <= TokenStatus.expiresIn status
  /\ (0 < TokenStatus.expiresIn status -> TokenStatus.isValid status = true)
  /\ (TokenStatus.isValid status = false -> TokenStatus.needsRefresh status = true)
  /\ (TokenStatus.needsRefresh status = false ->
      TokenStatus.isValid status = true /\ 10 <= TokenStatus.expiresIn status)
  /\ (TokenStatus.expiresAt status = None ->
      TokenStatus.isValid status = false
      /\ TokenStatus.expiresIn status = 0
      /\ TokenStatus.needsRefresh status = true).
Proof.
  unfold status_of, due.
  cbn [TokenStatus.isValid TokenStatus.expiresAt TokenStatus.expiresIn
       TokenStatus.needsRefresh REFRESH_BUFFER_MINUTES new_LightspeedTokenService].
  destruct (expiresAt tokens) as [e|].
  - pose proof (minutes_floor e now) as Hdiv. repeat split.
    + lia.
    + intros H. apply Z.ltb_lt. assert (H1 : 1 <= (e - now) / (1000 * 60)) by lia.
      apply Hdiv in H1. lia.
    + intros H. apply Z.ltb_ge in H. apply Z.leb_le. lia.
    + apply Z.leb_gt in H. apply Z.ltb_lt. lia.
    + apply Z.leb_gt in H. assert (10 <= (e - now) / (1000 * 60)) by (apply Hdiv; lia).
      lia.
    + discriminate.
    + discriminate.
    + discriminate.
  - repeat split; auto; try lia; try discriminate.
Qed.

(** X5.  In every status [getTokenStatus] returns: the minutes left are
    not negative and are positive only for a valid token; a token that
    is not valid needs a refresh; a token that needs no refresh is
    valid with at least ten minutes left; a row without expiry is
    reported invalid, with no minute left, and in need of a refresh. *)
Theorem status_fields_agree :
  forall host w status,
    result (getTokenStatus (new_LightspeedTokenService host) w) = Return (Some status) ->
    0 <= TokenStatus.expiresIn status
    /\ (0 < TokenStatus.expiresIn status -> TokenStatus.isValid status = true)
    /\ (TokenStatus.isValid status = false -> TokenStatus.needsRefresh status = true)
    /\ (TokenStatus.needsRefresh status = false ->
        TokenStatus.isValid status = true /\ 10 <= TokenStatus.expiresIn status)
    /\ (TokenStatus.expiresAt status = None ->
        TokenStatus.isValid status = false
        /\ TokenStatus.expiresIn status = 0
        /\ TokenStatus.needsRefresh status = true).
Proof.
  intros host w status. rewrite getTokenStatus_eq. cbn [result].
  destruct (hd_error (table w)) as [tokens|]; [|discriminate].
  cbn [option_map]. intros H. apply Return_inj in H. injection H as <-.
  apply status_of_facts.
Qed.

Lemma status_fields_agree_witness :
  let status := {| TokenStatus.isValid := true;
                   TokenStatus.expiresAt := Some 1700003600000;
                   TokenStatus.expiresIn := 5;
                   TokenStatus.needsRefresh := true;
                   TokenStatus.lastUpdated := 1700000000000 |} in
  result (getTokenStatus (new_LightspeedTokenService (Sample.host_with Sample.rotating))
            Sample.stale) = Return (Some status)
  /\ 0 <= TokenStatus.expiresIn status
  /\ (0 < TokenStatus.expiresIn status -> TokenStatus.isValid status = true)
  /\ (TokenStatus.isValid status = false -> TokenStatus.needsRefresh status = true)
  /\ (TokenStatus.needsRefresh status = false ->
      TokenStatus.isValid status = true /\ 10 <= TokenStatus.expiresIn status)
  /\ (TokenStatus.expiresAt status = None ->
      TokenStatus.isValid status = false
      /\ TokenStatus.expiresIn status = 0
      /\ TokenStatus.needsRefresh status = true).
Proof.
  intros status.
  assert (H : result (getTokenStatus
                        (new_LightspeedTokenService (Sample.host_with Sample.rotating))
                        Sample.stale) = Return (Some status))
    by (vm_compute; reflexivity).
  split; [exact H|].
  exact (status_fields_agree (Sample.host_with Sample.rotating) Sample.stale status H).
Defined.

(** X6.  The health check over a table with a row prints the warning
    that the tokens expire soon exactly when between 1 and 30 minutes
    are left, and the alert that they are expired exactly when the
    token is not valid; it never prints both. *)
Theorem health_check_warns_or_alerts :
  forall host w tokens rest,
    table w = tokens :: rest ->
    let status := status_of (new_LightspeedTokenService host) tokens (clock w) in
    let lines := console (emitted (performHealthCheck (new_TokenScheduler host) w)) in
    let warning := [Text "🚨 WARNING: Tokens expire in less than 30 minutes!"] in
    let alert := [Text "🚨 ALERT: Tokens are expired! Automatic refresh should handle this."] in
    (In warning lines <-> 0 < TokenStatus.expiresIn status <= 30)
    /\ (In alert lines <-> TokenStatus.isValid status = false)
    /\ ~ (In warning lines /\ In alert lines).
Proof.
  intros host w tokens rest Htable status lines warning alert.
  assert (Hlines :
    lines = ([[Text "🏥 Health Check Results:"];
             [Template [Text "   Status: ";
                        Text (if TokenStatus.isValid status then "✅ Valid" else "❌ Invalid")]];
             [Template [Text "   Expires in: "; Num (Some (TokenStatus.expiresIn status));
                        Text " minutes"]];
             [Template [Text "   Needs refresh: ";
                        Text (if TokenStatus.needsRefresh status then "⚠️ Yes" else "✅ No")]];
             [Template [Text "   Last updated: "; Iso (TokenStatus.lastUpdated status)]]]
            ++ (if (TokenStatus.expiresIn status <=? 30) && (0 <? TokenStatus.expiresIn status)
                then [warning] else [])
            ++ (if negb (TokenStatus.isValid status) then [alert] else []))%list).
  { subst lines. unfold performHealthCheck. run_m. rewrite getTokenStatus_eq, Htable.
    cbn [hd_error option_map tokenService new_TokenScheduler]. fold status.
    destruct (_ && _); destruct (negb _); reflexivity. }
  assert (Hwarning : In warning lines
                     <-> (TokenStatus.expiresIn status <=? 30) && (0 <? TokenStatus.expiresIn status) = true).
  { rewrite Hlines. subst warning alert.
    destruct (_ && _); destruct (negb _); cbn; intuition congruence. }
  assert (Halert : In alert lines <-> negb (TokenStatus.isValid status) = true).
  { rewrite Hlines. subst warning alert.
    destruct (_ && _); destruct (negb _); cbn; intuition congruence. }
  rewrite Hwarning, Halert, andb_true_iff, Z.leb_le, Z.ltb_lt, negb_true_iff.
  destruct (status_of_facts host tokens (clock w)) as (_ & Hpos & _). fold status in Hpos.
  repeat split; try tauto; try lia.
  intros [[_ H1] H2]. rewrite (Hpos H1) in H2. discriminate.
Qed.

Lemma health_check_warns_or_alerts_witness :
  let host := Sample.host_with Sample.rotating in
  let status := status_of (new_LightspeedTokenService host) Example.stale_row
                  (clock Sample.stale) in
  let lines := console (emitted (performHealthCheck (new_TokenScheduler host) Sample.stale)) in
  let warning := [Text "🚨 WARNING: Tokens expire in less than 30 minutes!"] in
  let alert := [Text "🚨 ALERT: Tokens are expired! Automatic refresh should handle this."] in
  table Sample.stale = [Example.stale_row]
  /\ (In warning lines <-> 0 < TokenStatus.expiresIn status <= 30)
  /\ (In alert lines <-> TokenStatus.isValid status = false)
  /\ ~ (In warning lines /\ In alert lines).
Proof.
  assert (H : table Sample.stale = [Example.stale_row]) by (vm_compute; reflexivity).
  split; [exact H|].
  exact (health_check_warns_or_alerts (Sample.host_with Sample.rotating) Sample.stale
           Example.stale_row [] H).
Defined.

(** X7.  [getTimeUntilExpiry] gives the minutes the status reports;
    [expiresWithin] grows with its bound; and the refresh window lies
    between two of its answers: a token that expires within 9 minutes
    needs a refresh, and a token that needs a refresh expires within
    10. *)
Theorem expiry_windows_nest :
  forall host tokens w,
    let this := new_LightspeedTokenService host in
    getTimeUntilExpiry tokens w
    = Ran (Return (TokenStatus.expiresIn (status_of this tokens (clock w)))) w []
    /\ (forall m m', m <= m' ->
          result (expiresWithin tokens m w) = Return true ->
          result (expiresWithin tokens m' w) = Return true)
    /\ (result (expiresWithin tokens 9 w) = Return true ->
        result (needsRefresh this tokens w) = Return true)
    /\ (result (needsRefresh this tokens w) = Return true ->
        result (expiresWithin tokens 10 w) = Return true).
Proof.
  intros host tokens w this. subst this.
  assert (Hget : getTimeUntilExpiry tokens w
                 = Ran (Return (TokenStatus.expiresIn
                                  (status_of (new_LightspeedTokenService host) tokens (clock w))))
                     w []).
  { unfold getTimeUntilExpiry, status_of. cbn [TokenStatus.expiresIn].
    destruct (expiresAt tokens); reflexivity. }
  split; [exact Hget|].
  unfold expiresWithin, bind. rewrite Hget, needsRefresh_eq. cbn [result ret].
  unfold status_of, due.
  cbn [TokenStatus.expiresIn REFRESH_BUFFER_MINUTES new_LightspeedTokenService].
  repeat split.
  - intros m m' Hle H. apply Return_inj in H. f_equal.
    apply Z.leb_le in H. apply Z.leb_le. lia.
  - intros H. apply Return_inj in H. f_equal. apply Z.leb_le in H.
    destruct (expiresAt tokens) as [e|]; [|reflexivity].
    apply Z.leb_le.
    assert (~ 10 <= (e - clock w) / (1000 * 60)) by lia.
    rewrite minutes_floor in H0. lia.
  - intros H. apply Return_inj in H. f_equal. apply Z.leb_le.
    destruct (expiresAt tokens) as [e|]; [|lia].
    apply Z.leb_le in H.
    assert (~ 11 <= (e - clock w) / (1000 * 60)); [|lia].
    rewrite minutes_floor. lia.
Qed.

(** ** Clearing, and reading an empty table *)

(** X8.  After [clearTokens], whatever the table held: the table is
    empty, and every read reports that nothing is configured, without
    a request to the provider: [getLatestTokens] and [getTokenStatus]
    return none, [getValidAccessToken] returns none and prints one
    line, [validateTokens] returns false, and [cliRefresh] and
    [cliShowTokens] answer that no tokens were found. *)
Theorem cleared_store_reads_as_unconfigured :
  forall crypto host w,
    let this := new_LightspeedTokenService host in
    let w' := after (clearTokens w) in
    table w' = []
    /\ getLatestTokens w' = Ran (Return None) w' []
    /\ getTokenStatus this w' = Ran (Return None) w' []
    /\ getValidAccessToken crypto host this w'
       = Ran (Return None) w' [console_error [Text "No Lightspeed tokens found"]]
    /\ validateTokens crypto host this w' = Ran (Return false) w' []
    /\ cliRefresh crypto host this w'
       = Ran (Return (Cli.failure
                        (Cli.Says "No tokens found. Please login first using the login command")))
           w' [console_log [Text "🔄 Refreshing tokens..."]]
    /\ cliShowTokens crypto this w'
       = Ran (Return (Cli.failure (Cli.Says "No tokens found"))) w' [].
Proof.
  intros crypto host w this w'. subst w'. unfold clearTokens, db.deleteMany.
  cbn [after]. repeat split.
Qed.

(** ** Manual entry *)



(** ** The command-line methods *)

Lemma try_catch_returns {A} (body : M A) (handler : Exn -> M A) w :
  (forall e w1, exists a, result (handler e w1) = Return a) ->
  exists a, result (try_catch body handler w) = Return a.
Proof.
  intros H. unfold try_catch.
  destruct (body w) as [[a|e] w1 ev1]; [eexists; reflexivity|].
  destruct (H e w1) as (a & Ha). destruct (handler e w1) as [r w2 ev2].
  cbn in *. eauto.
Qed.

(** X10.  None of the six command-line methods throws, whatever the
    host, the key, the table and the answer of the provider: each
    returns an answer. *)
Theorem cli_methods_always_answer :
  forall crypto host this w,
    (forall authCode, exists answer,
        result (cliLogin crypto host this authCode w) = Return answer)
    /\ (exists answer, result (cliRefresh crypto host this w) = Return answer)
    /\ (exists answer, result (cliStatus this w) = Return answer)
    /\ (exists answer, result (cliClear w) = Return answer)
    /\ (exists answer, result (cliShowTokens crypto this w) = Return answer)
    /\ (forall accessToken refreshToken minutes, exists answer,
           result (cliSetTokens crypto this accessToken refreshToken minutes w)
           = Return answer).
Proof.
  intros crypto host this w. repeat split; intros;
    unfold cliLogin, cliRefresh, cliStatus, cliClear, cliShowTokens, cliSetTokens;
    repeat match goal with
           | |- context [if ?b then _ else _] =>
               match b with
               | context [blank _] => destruct b
               | context [String.length _] => destruct b
               | context [includes_space _] => destruct b
               end
           end;
    try (eexists; reflexivity);
    apply try_catch_returns; intros; eexists; reflexivity.
Qed.

(** ** Missing client credentials *)

(** X11.  Without client credentials (either variable unset or empty)
    the two exchanges throw before they print or post anything;
    [refreshTokens] and [loginWithAuthCode] catch that: each returns
    none, prints one error line, posts nothing and leaves the world as
    it was. *)
Theorem missing_credentials_are_absorbed :
  forall crypto host this text w,
    has_credentials host = false ->
    (exists e,
        requestTokenRefresh host text w = Ran (Throw e) w []
        /\ refreshTokens crypto host this text w
           = Ran (Return None) w
               [console_error [Text "Error refreshing Lightspeed tokens:"; Caught e]])
    /\ (exists e,
           exchangeAuthCodeForTokens host text w = Ran (Throw e) w []
           /\ loginWithAuthCode crypto host this text w
              = Ran (Return None) w
                  [console_error [Text "❌ Login flow failed:"; Caught e]]).
Proof.
  intros crypto host this text w Hno.
  destruct (unconfigured_exchanges_throw host text w Hno) as (H1 & H2).
  split; eexists; (split; [eassumption|]).
  - unfold refreshTokens, try_catch, bind. rewrite H1. reflexivity.
  - unfold loginWithAuthCode, try_catch, bind. rewrite H2. reflexivity.
Qed.

Lemma missing_credentials_are_absorbed_witness :
  let crypto := Sample.library in
  let host := Example.anonymous in
  let this := new_LightspeedTokenService host in
  let text := "code-1" in
  let w := Sample.start in
  has_credentials host = false
  /\ (exists e,
         requestTokenRefresh host text w = Ran (Throw e) w []
         /\ refreshTokens crypto host this text w
            = Ran (Return None) w
                [console_error [Text "Error refreshing Lightspeed tokens:"; Caught e]])
  /\ (exists e,
         exchangeAuthCodeForTokens host text w = Ran (Throw e) w []
         /\ loginWithAuthCode crypto host this text w
            = Ran (Return None) w
                [console_error [Text "❌ Login flow failed:"; Caught e]]).
Proof.
  split; [reflexivity|].
  exact (missing_credentials_are_absorbed Sample.library Example.anonymous
           (new_LightspeedTokenService Example.anonymous) "code-1" Sample.start eq_refl).
Defined.

(** ** Login *)

(** X12.  With a faithful cipher: when [loginWithAuthCode] returns a
    row, one request was posted, carrying the code; the provider
    answered it with a status from 200 to 299 and two tokens that are
    not empty; the row decrypts to these two tokens; its expiry is what
    [setSeconds] makes of the clock and [expires_in] seconds (3600
    when [expires_in] is absent or 0), in the local time of the
    process: an instant a [Date] can hold, and the clock plus that
    many seconds where the offset of local time does not change in
    between; and the row was appended, under the key 0, to a table
    that held no row under that key, the one write of the call. *)
Theorem login_stores_what_the_provider_sent :
  forall crypto host authCode w row,
    faithful crypto ->
    let this := new_LightspeedTokenService host in
    let o := loginWithAuthCode crypto host this authCode w in
    result o = Return (Some row) ->
    exists cid secret status body data access refresh,
      credentials host cid secret
      /\ requests (emitted o) = [code_body cid secret authCode]
      /\ fetch host (code_body cid secret authCode) = HttpResponse status body (Some data)
      /\ 200 <= status < 300
      /\ access_token data = Some access /\ refresh_token data = Some refresh
      /\ access <> EmptyString /\ refresh <> EmptyString
      /\ decrypt crypto this (accessToken row) = Return access
      /\ decrypt crypto this (refreshToken row) = Return refresh
      /\ expiresAt row = Some (moved w (seconds_or_hour data))
      /\ representable (moved w (seconds_or_hour data)) = true
      /\ (same_offset w (seconds_or_hour data) ->
          expiresAt row = Some (clock w + 1000 * seconds_or_hour data))
      /\ updatedAt row = clock w
      /\ id row = 0 /\ vacant w = true
      /\ table (after o) = (table w ++ [row])%list
      /\ writes (emitted o) = [Created row].
Proof.
  intros crypto host authCode w row Hf this o Hres.
  destruct (loginWithAuthCode_spec crypto host this authCode w) as (_ & _ & H).
  fold o in H. rewrite Hres in H.
  destruct H as (cid & secret & status & body & data & a' & r' & c1 & c2 & Hc & Hfetch
                 & Hok & Hcomplete & Ha & Hr & H1 & H2 & Hrow & Htab & Hwr & Hreq
                 & Hrep & Hvac).
  exists cid, secret, status, body, data, a', r'.
  assert (Hne : a' <> EmptyString /\ r' <> EmptyString).
  { unfold complete in Hcomplete. rewrite Ha, Hr in Hcomplete.
    apply andb_true_iff in Hcomplete. destruct Hcomplete as (Hx & Hy).
    split; intros ->; discriminate. }
  destruct Hne as (Hne1 & Hne2).
  assert (Hstatus : 200 <= status < 300).
  { unfold ok in Hok. apply andb_true_iff in Hok. destruct Hok as (Hx & Hy).
    apply Z.leb_le in Hx. apply Z.leb_le in Hy. lia. }
  pose proof (decrypt_encrypted crypto host a' w c1 Hf H1) as Hd1.
  pose proof (decrypt_encrypted crypto host r' _ c2 Hf H2) as Hd2.
  subst row. cbn [accessToken refreshToken expiresAt updatedAt id fresh_row].
  split; [exact Hc|].
  repeat (split; [assumption || reflexivity || lia|]).
  split; [intros Hsame; now rewrite (moved_same_offset _ _ Hsame)|].
  repeat split; auto.
Qed.

(** A login in London, half an hour before the clocks go back: the
    3600 seconds of the default are added to local time, and the row
    expires 7200 seconds after the clock. *)
Lemma login_stores_what_the_provider_sent_witness :
  faithful Sample.library /\
  exists row,
    let host := Sample.host_with Sample.timeless in
    let authCode := "code-1" in
    let w := Sample.autumn in
    let this := new_LightspeedTokenService host in
    let o := loginWithAuthCode Sample.library host this authCode w in
    result o = Return (Some row)
    /\ expiresAt row = Some (clock w + 1000 * 7200)
    /\ exists cid secret status body data access refresh,
      credentials host cid secret
      /\ requests (emitted o) = [code_body cid secret authCode]
      /\ fetch host (code_body cid secret authCode) = HttpResponse status body (Some data)
      /\ 200 <= status < 300
      /\ access_token data = Some access /\ refresh_token data = Some refresh
      /\ access <> EmptyString /\ refresh <> EmptyString
      /\ decrypt Sample.library this (accessToken row) = Return access
      /\ decrypt Sample.library this (refreshToken row) = Return refresh
      /\ expiresAt row = Some (moved w (seconds_or_hour data))
      /\ representable (moved w (seconds_or_hour data)) = true
      /\ (same_offset w (seconds_or_hour data) ->
          expiresAt row = Some (clock w + 1000 * seconds_or_hour data))
      /\ updatedAt row = clock w
      /\ id row = 0 /\ vacant w = true
      /\ table (after o) = (table w ++ [row])%list
      /\ writes (emitted o) = [Created row].
Proof.
  split; [exact sample_faithful|].
  eexists. cbv zeta. split; [vm_compute; reflexivity|].
  split; [vm_compute; reflexivity|].
  exact (login_stores_what_the_provider_sent Sample.library
           (Sample.host_with Sample.timeless) "code-1" Sample.autumn _
           sample_faithful eq_refl).
Defined.

(** ** The code [cliLogin] posts *)

Lemma remove_spaces_spaceless text : spaceless (remove_spaces text) = true.
Proof.
  unfold spaceless. induction text as [|c rest IH]; [reflexivity|].
  cbn [remove_spaces]. destruct (is_space c) eqn:Hc; [exact IH|].
  cbn [list_ascii_of_string forallb]. rewrite Hc. exact IH.
Qed.

Lemma remove_spaces_of_spaceless text :
  spaceless text = true -> remove_spaces text = text.
Proof.
  unfold spaceless. induction text as [|c rest IH]; [reflexivity|].
  cbn [list_ascii_of_string forallb remove_spaces]. intros H.
  apply andb_true_iff in H. destruct H as (Hc & Hrest).
  apply negb_true_iff in Hc. rewrite Hc, (IH Hrest). reflexivity.
Qed.

Lemma blank_false_nonempty text : blank text = false -> remove_spaces text <> EmptyString.
Proof. unfold blank. intros H. now apply String.eqb_neq. Qed.

(** X13.  A request [cliLogin] posts is the only one of the call; it is
    an exchange of an authorization code under the configured client
    credentials, and the code it carries is the code entered with its
    white space removed: it is never empty, has no white space, and is
    the code entered when that had none (white space being the ASCII
    characters [is_space] accepts). *)
Theorem cliLogin_posts_a_clean_code :
  forall crypto host this authCode w request,
    In request (requests (emitted (cliLogin crypto host this authCode w))) ->
    requests (emitted (cliLogin crypto host this authCode w)) = [request]
    /\ grant_type request = "authorization_code"
    /\ sent_refresh_token request = None
    /\ LIGHTSPEED_CLIENT_ID host = Some (client_id request)
    /\ LIGHTSPEED_CLIENT_SECRET host = Some (client_secret request)
    /\ exists sent,
        code request = Some sent
        /\ sent = remove_spaces authCode
        /\ sent <> EmptyString
        /\ spaceless sent = true
        /\ (spaceless authCode = true -> sent = authCode).
Proof.
  intros crypto host this authCode w request.
  unfold cliLogin. destruct (blank authCode) eqn:Hblank; [intros []|].
  unfold try_catch, bind, log, emit.
  destruct (loginWithAuthCode_spec crypto host this authCode w) as (_ & Hreq & Hres).
  destruct (loginWithAuthCode crypto host this authCode w) as [[[row|]|e] w1 ev1];
    cbn [result after emitted] in Hreq, Hres; [| |contradiction].
  all: try rewrite getTokenStatus_eq; cbn [result after emitted ret];
    rewrite ?requests_app, ?app_nil_r; cbn [requests app];
    rewrite ?requests_app, ?app_nil_r; cbn [requests app]; rewrite ?app_nil_r.
  all: destruct Hreq as [(_ & Hreq)|(cid & secret & Hc & Hreq)]; rewrite Hreq; [intros []|].
  all: intros [<-|[]]; destruct Hc as (Hid & Hsecret & _); cbn [code_body grant_type
         sent_refresh_token client_id client_secret code].
  all: repeat split; auto; exists (remove_spaces authCode);
    repeat split; auto using remove_spaces_spaceless, blank_false_nonempty.
  all: intros H; now apply remove_spaces_of_spaceless.
Qed.

Lemma cliLogin_posts_a_clean_code_witness :
  let crypto := Sample.library in
  let host := Sample.host_with Sample.rotating in
  let this := new_LightspeedTokenService host in
  let authCode := " co de-1 " in
  let w := Sample.start in
  let request := code_body "client" "secret" authCode in
  In request (requests (emitted (cliLogin crypto host this authCode w)))
  /\ requests (emitted (cliLogin crypto host this authCode w)) = [request]
  /\ grant_type request = "authorization_code"
  /\ sent_refresh_token request = None
  /\ LIGHTSPEED_CLIENT_ID host = Some (client_id request)
  /\ LIGHTSPEED_CLIENT_SECRET host = Some (client_secret request)
  /\ exists sent,
      code request = Some sent
      /\ sent = remove_spaces authCode
      /\ sent <> EmptyString
      /\ spaceless sent = true
      /\ (spaceless authCode = true -> sent = authCode).
Proof.
  intros crypto host this authCode w request.
  assert (H : In request (requests (emitted (cliLogin crypto host this authCode w))))
    by (vm_compute; left; reflexivity).
  split; [exact H|].
  exact (cliLogin_posts_a_clean_code crypto host this authCode w request H).
Defined.

(** ** [getValidAccessToken] *)

(** X14.  With a faithful cipher: a token [getValidAccessToken] returns
    comes from the first row.  Either that row needs no refresh, the
    token is what its access token decrypts to, and the call posted,
    printed and changed nothing; or the row needed a refresh, one
    request was posted with what its refresh token decrypts to, the
    token is the access token of the provider's answer, and the first
    row now holds it; its expiry is what [setSeconds] makes of the
    clock and [expires_in] seconds in the local time of the process,
    which is the clock plus that many seconds where the offset of
    local time does not change in between. *)
Theorem valid_access_token_is_current :
  forall crypto host w token,
    faithful crypto ->
    let this := new_LightspeedTokenService host in
    let o := getValidAccessToken crypto host this w in
    result o = Return (Some token) ->
    exists old rest,
      table w = old :: rest
      /\ ((due this old (clock w) = false
           /\ decrypt crypto this (accessToken old) = Return token
           /\ after o = w /\ emitted o = [])
          \/ (due this old (clock w) = true
              /\ exists sent cid secret status body data seconds row,
                  decrypt crypto this (refreshToken old) = Return sent
                  /\ credentials host cid secret
                  /\ requests (emitted o) = [refresh_body cid secret sent]
                  /\ fetch host (refresh_body cid secret sent)
                     = HttpResponse status body (Some data)
                  /\ access_token data = Some token
                  /\ expires_in data = Some seconds
                  /\ table (after o) = row :: rest
                  /\ id row = id old
                  /\ decrypt crypto this (accessToken row) = Return token
                  /\ expiresAt row = Some (moved w seconds)
                  /\ (same_offset w seconds ->
                      expiresAt row = Some (clock w + 1000 * seconds)))).
Proof.
  intros crypto host w token Hf this o. subst o.
  unfold getValidAccessToken. run_m.
  destruct (table w) as [|old rest] eqn:Htable; [discriminate|].
  cbn [hd_error]. rewrite needsRefresh_eq. cbn [result after emitted app].
  intros Hres. exists old, rest. split; [reflexivity|].
  destruct (due this old (clock w)) eqn:Hdue.
  - right. split; [reflexivity|].
    destruct (decrypt crypto this (refreshToken old)) as [sent|e] eqn:Hsent;
      [|discriminate].
    cbn [result after emitted app] in *.
    destruct (refreshTokens_spec crypto host this sent w) as (_ & _ & Hreq & Hspec).
    destruct (refreshTokens crypto host this sent w) as [[[row|]|e] w1 ev1];
      cbn [result after emitted app] in *; [|discriminate|contradiction].
    destruct Hspec as (cid & secret & status & body & data & a' & r' & n' & c1 & c2
                       & Hc & Hfetch & Hok & Ha & Hr & (Hn & Hrep) & H1 & H2 & Hrow).
    rewrite Htable in Hrow. destruct Hrow as (Hrow & Htab).
    pose proof (decrypt_encrypted crypto host a' w c1 Hf H1) as Hd.
    fold this in Hd.
    assert (Hacc : accessToken row = c1) by (rewrite Hrow; reflexivity).
    rewrite Hacc, Hd in Hres |- *. cbn [result after emitted app] in Hres |- *.
    apply Return_inj in Hres. injection Hres as <-.
    exists sent, cid, secret, status, body, data, n', row.
    split; [reflexivity|]. split; [exact Hc|].
    split; [rewrite ?app_nil_r; cbn [requests]; now apply Hreq|].
    cbn [after].
    split; [exact Hfetch|]. split; [exact Ha|]. split; [exact Hn|].
    split; [exact Htab|].
    rewrite Hrow. cbn [id accessToken expiresAt overwrite].
    split; [reflexivity|]. split; [exact Hd|]. split; [reflexivity|].
    intros Hsame. now rewrite (moved_same_offset _ _ Hsame).
  - left. split; [reflexivity|].
    destruct (decrypt crypto this (accessToken old)) as [plain|e]; [|discriminate].
    cbn [result after emitted app] in *. apply Return_inj in Hres. injection Hres as <-.
    repeat split.
Qed.

Lemma valid_access_token_is_current_witness :
  let crypto := Sample.library in
  let host := Sample.host_with Sample.rotating in
  let w := Sample.stale in
  let token := "access-token-number-two-0123456789" in
  let this := new_LightspeedTokenService host in
  let o := getValidAccessToken crypto host this w in
  faithful crypto
  /\ result o = Return (Some token)
  /\ exists old rest,
      table w = old :: rest
      /\ ((due this old (clock w) = false
           /\ decrypt crypto this (accessToken old) = Return token
           /\ after o = w /\ emitted o = [])
          \/ (due this old (clock w) = true
              /\ exists sent cid secret status body data seconds row,
                  decrypt crypto this (refreshToken old) = Return sent
                  /\ credentials host cid secret
                  /\ requests (emitted o) = [refresh_body cid secret sent]
                  /\ fetch host (refresh_body cid secret sent)
                     = HttpResponse status body (Some data)
                  /\ access_token data = Some token
                  /\ expires_in data = Some seconds
                  /\ table (after o) = row :: rest
                  /\ id row = id old
                  /\ decrypt crypto this (accessToken row) = Return token
                  /\ expiresAt row = Some (moved w seconds)
                  /\ (same_offset w seconds ->
                      expiresAt row = Some (clock w + 1000 * seconds)))).
Proof.
  intros crypto host w token this o.
  assert (H : result o = Return (Some token)) by (vm_compute; reflexivity).
  split; [exact sample_faithful|]. split; [exact H|].
  exact (valid_access_token_is_current crypto host w token sample_faithful H).
Defined.

(** ** What an answer of the command-line methods says about the table *)

Lemma setTokensManually_spec crypto this a r m w :
  let o := setTokensManually crypto this a r m w in
  requests (emitted o) = []
  /\ match result o with
     | Throw _ => table (after o) = table w /\ writes (emitted o) = []
     | Return row =>
         blank a = false /\ blank r = false
         /\ table (after o) = (table w ++ [row])%list
         /\ writes (emitted o) = [Created row]
     end.
Proof.
  unfold setTokensManually.
  destruct (blank a) eqn:Ha; [cbn; auto|].
  destruct (blank r) eqn:Hr; [cbn; auto|]. cbn [orb]. run_m.
  match goal with
  | |- context [insertTokens ?c ?t ?x ?y ?z w] =>
      pose proof (insertTokens_spec c t x y z w) as Hs; cbv zeta in Hs;
      destruct (insertTokens c t x y z w) as [[row|e] w1 ev2]
  end; cbn [result after emitted] in Hs |- *.
  - destruct Hs as (Hreq & _ & a' & r' & n' & c1 & c2 & _ & _ & _ & _ & _ & _ & Htab & _ & Hwr).
    cbn [requests writes]. rewrite Hreq, Hwr. auto.
  - destruct Hs as (Hreq & _ & Htab & _ & Hwr).
    cbn [requests writes]. rewrite Hreq, Hwr. auto.
Qed.

(** X15.  What the answers of the three command-line methods that
    write say about the table.  [cliSetTokens] posts nothing; when it
    answers with success both tokens have ten characters or more and
    no space, and one row was appended; [cliLogin] answers with
    success only after one row was appended; when either answers with
    a failure the table is as before and nothing was written.  When
    [cliRefresh] answers with success the first row was replaced where
    it stands, under its key; when it answers with a failure the table
    is as before and nothing was written. *)
Theorem cli_answers_tell_what_was_stored :
  forall crypto host this w,
    (forall a r m answer,
        let o := cliSetTokens crypto this a r m w in
        result o = Return answer ->
        requests (emitted o) = []
        /\ if Cli.success answer
           then (10 <= String.length a)%nat /\ (10 <= String.length r)%nat
                /\ includes_space a = false /\ includes_space r = false
                /\ exists row, table (after o) = (table w ++ [row])%list
                               /\ writes (emitted o) = [Created row]
           else table (after o) = table w /\ writes (emitted o) = [])
    /\ (forall authCode answer,
           let o := cliLogin crypto host this authCode w in
           result o = Return answer ->
           if Cli.success answer
           then exists row, table (after o) = (table w ++ [row])%list
                            /\ writes (emitted o) = [Created row]
           else table (after o) = table w /\ writes (emitted o) = [])
    /\ (forall answer,
           let o := cliRefresh crypto host this w in
           result o = Return answer ->
           if Cli.success answer
           then exists old rest row,
               table w = old :: rest /\ table (after o) = row :: rest
               /\ id row = id old
           else table (after o) = table w /\ writes (emitted o) = []).
Proof.
  intros crypto host this w. split; [|split].
  - intros a r m answer o. subst o. unfold cliSetTokens.
    destruct (blank a || blank r); [cbn; intros H; apply Return_inj in H; subst; cbn; auto|].
    destruct (String.length a <? 10)%nat eqn:La;
      [cbn; intros H; apply Return_inj in H; subst; cbn; auto|].
    destruct (String.length r <? 10)%nat eqn:Lr;
      [cbn; intros H; apply Return_inj in H; subst; cbn; auto|].
    destruct (includes_space a) eqn:Sa;
      [cbn; intros H; apply Return_inj in H; subst; cbn; auto|].
    destruct (includes_space r) eqn:Sr;
      [cbn; intros H; apply Return_inj in H; subst; cbn; auto|].
    cbn [orb]. apply Nat.ltb_ge in La, Lr.
    unfold try_catch, bind.
    destruct (setTokensManually_spec crypto this a r m w) as (Hreq & Hs).
    destruct (setTokensManually crypto this a r m w) as [[row|e] w1 ev1];
      cbn [result after emitted] in Hreq, Hs.
    + rewrite getTokenStatus_eq. cbn [result after emitted ret].
      intros H. apply Return_inj in H. subst answer. cbn [Cli.success Cli.done].
      rewrite !requests_app, !writes_app, Hreq. destruct Hs as (_ & _ & Htab & Hwr).
      rewrite Hwr. cbn. repeat split; auto. exists row. auto.
    + cbn [result after emitted ret]. intros H. apply Return_inj in H. subst answer.
      cbn [Cli.success Cli.failure]. rewrite !requests_app, !writes_app, Hreq.
      destruct Hs as (Htab & Hwr). rewrite Hwr. cbn. auto.
  - intros authCode answer o. subst o. unfold cliLogin.
    destruct (blank authCode); [cbn; intros H; apply Return_inj in H; subst; cbn; auto|].
    unfold try_catch, bind, log, emit.
    destruct (loginWithAuthCode_spec crypto host this authCode w) as (_ & _ & Hs).
    destruct (loginWithAuthCode crypto host this authCode w) as [[[row|]|e] w1 ev1];
      cbn [result after emitted] in Hs; [| |contradiction].
    + rewrite getTokenStatus_eq. cbn [result after emitted ret].
      intros H. apply Return_inj in H. subst answer. cbn [Cli.success Cli.done].
      destruct Hs as (cid & secret & status & body & data & a' & r' & c1 & c2 & _ & _
                      & _ & _ & _ & _ & _ & _ & _ & Htab & Hwr & _).
      exists row. split; [exact Htab|]. cbn [app writes].
      rewrite !writes_app, Hwr. reflexivity.
    + cbn [result after emitted ret]. intros H. apply Return_inj in H. subst answer.
      cbn [Cli.success Cli.failure]. destruct Hs as (Htab & _ & Hwr).
      split; [exact Htab|]. cbn [app writes]. rewrite !writes_app, Hwr. reflexivity.
  - intros answer o. subst o. unfold cliRefresh. run_m.
    destruct (table w) as [|old rest] eqn:Htable; cbn [hd_error];
      [cbn; intros H; apply Return_inj in H; subst; cbn; auto|].
    destruct (decrypt crypto this (refreshToken old)) as [sent|e];
      [|cbn; intros H; apply Return_inj in H; subst; cbn; auto].
    destruct (refreshTokens_spec crypto host this sent w) as (_ & _ & _ & Hs).
    destruct (refreshTokens crypto host this sent w) as [[[row|]|e] w1 ev1];
      cbn [result after emitted] in Hs; [| |contradiction].
    + rewrite getTokenStatus_eq. cbn [result after emitted ret].
      intros H. apply Return_inj in H. subst answer. cbn [Cli.success Cli.done].
      destruct Hs as (cid & secret & status & body & data & a' & r' & n' & c1 & c2 & _ & _
                      & _ & _ & _ & _ & _ & _ & Hrow).
      rewrite Htable in Hrow. destruct Hrow as (Hrow & Htab).
      exists old, rest, row. repeat split; auto. rewrite Hrow. reflexivity.
    + cbn [result after emitted ret]. intros H. apply Return_inj in H. subst answer.
      cbn [Cli.success Cli.failure]. destruct Hs as (Htab & _ & Hwr).
      rewrite Htable in Htab.
      split; [exact Htab|]. cbn [app writes]. rewrite !writes_app, Hwr. reflexivity.
Qed.

(** ** Outside the refresh window *)

(** X16.  While the first row is outside the refresh window, no
    automatic path touches it: the tick of the refresh task returns,
    posts nothing, writes nothing and ends on the line that the tokens
    are still valid; [getValidAccessToken] is the decryption of the
    stored access token and nothing else; and [validateTokens] leaves
    the world and prints nothing. *)
Theorem fresh_tokens_are_left_alone :
  forall crypto host w tokens rest,
    table w = tokens :: rest ->
    due (new_LightspeedTokenService host) tokens (clock w) = false ->
    let this := new_LightspeedTokenService host in
    let tick := checkAndRefreshTokens crypto host (new_TokenScheduler host) w in
    let get := getValidAccessToken crypto host this w in
    let valid := validateTokens crypto host this w in
    (result tick = Return tt
     /\ requests (emitted tick) = [] /\ writes (emitted tick) = []
     /\ table (after tick) = table w
     /\ last (console (emitted tick)) []
        = [Text "✅ Tokens are still valid - no refresh needed"])
    /\ (get = Ran (match decrypt crypto this (accessToken tokens) with
                   | Return access => Return (Some access)
                   | Throw e => Throw e
                   end) w [])
    /\ (emitted valid = [] /\ after valid = w).
Proof.
  intros crypto host w tokens rest Htable Hdue this tick get valid.
  subst tick get valid this. split; [|split].
  - unfold checkAndRefreshTokens. run_m.
    cbv [get_lastTokenCheckHadTokens set_lastTokenCheckHadTokens].
    rewrite Htable. cbn [hd_error].
    change (tokenService (new_TokenScheduler host)) with (new_LightspeedTokenService host).
    destruct (lastTokenCheckHadTokens w); cbn [negb result after emitted app];
      rewrite needsRefresh_eq;
      cbn [result after emitted app clock with_lastTokenCheckHadTokens];
      rewrite Hdue; repeat split; exact Htable.
  - unfold getValidAccessToken. run_m. rewrite Htable. cbn [hd_error].
    rewrite needsRefresh_eq, Hdue. cbn [result after emitted app].
    destruct (decrypt _ _ (accessToken tokens)); reflexivity.
  - unfold validateTokens, getValidAccessToken. run_m. rewrite Htable. cbn [hd_error].
    destruct (negb (truthy (Some (refreshToken tokens)))); [split; reflexivity|].
    cbv beta. rewrite Htable. cbn [hd_error]. rewrite needsRefresh_eq, Hdue. cbn [result after emitted app].
    destruct (decrypt _ _ (accessToken tokens)); split; reflexivity.
Qed.

Lemma fresh_tokens_are_left_alone_witness :
  let crypto := Sample.library in
  let host := Sample.host_with Sample.rotating in
  let w := Sample.configured in
  let tokens := Example.stale_row in
  let this := new_LightspeedTokenService host in
  let tick := checkAndRefreshTokens crypto host (new_TokenScheduler host) w in
  let get := getValidAccessToken crypto host this w in
  let valid := validateTokens crypto host this w in
  table w = [tokens]
  /\ due (new_LightspeedTokenService host) tokens (clock w) = false
  /\ (result tick = Return tt
      /\ requests (emitted tick) = [] /\ writes (emitted tick) = []
      /\ table (after tick) = table w
      /\ last (console (emitted tick)) []
         = [Text "✅ Tokens are still valid - no refresh needed"])
  /\ (get = Ran (match decrypt crypto this (accessToken tokens) with
                 | Return access => Return (Some access)
                 | Throw e => Throw e
                 end) w [])
  /\ (emitted valid = [] /\ after valid = w).
Proof.
  intros crypto host w tokens this tick get valid.
  assert (H : table w = [tokens]) by (vm_compute; reflexivity).
  split; [exact H|]. split; [reflexivity|].
  exact (fresh_tokens_are_left_alone crypto host w tokens [] H eq_refl).
Defined.

(** ** A login without a usable key *)

Lemma credentials_configured host cid secret :
  credentials host cid secret -> has_credentials host = true.
Proof.
  intros (Hid & Hsecret & Hne1 & Hne2). unfold has_credentials.
  rewrite Hid, Hsecret, (truthy_nonempty _ Hne1), (truthy_nonempty _ Hne2). reflexivity.
Qed.

Lemma credentials_unique host cid secret cid' secret' :
  credentials host cid secret -> credentials host cid' secret' ->
  cid' = cid /\ secret' = secret.
Proof. intros (H1 & H2 & _) (H3 & H4 & _). split; congruence. Qed.

(** X17.  With client credentials but without a usable key, a login
    posts the authorization code to the provider all the same, and
    then stores nothing: it returns none, the table is as before. *)
Theorem login_without_a_key_spends_the_code :
  forall crypto host cid secret authCode w,
    (forall key, ~ key_of host key) ->
    credentials host cid secret ->
    let o := loginWithAuthCode crypto host (new_LightspeedTokenService host) authCode w in
    result o = Return None
    /\ requests (emitted o) = [code_body cid secret authCode]
    /\ writes (emitted o) = []
    /\ table (after o) = table w.
Proof.
  intros crypto host cid secret authCode w Hkey Hc o.
  destruct (loginWithAuthCode_spec crypto host (new_LightspeedTokenService host) authCode w)
    as (_ & Hreq & Hres). fold o in Hreq, Hres.
  assert (Hposted : requests (emitted o) = [code_body cid secret authCode]).
  { destruct Hreq as [(Hno & _)|(cid' & secret' & Hc' & Hreq)].
    - rewrite (credentials_configured _ _ _ Hc) in Hno. discriminate.
    - destruct (credentials_unique _ _ _ _ _ Hc Hc') as (-> & ->). exact Hreq. }
  destruct (result o) as [[row|]|e]; [|tauto|contradiction].
  destruct Hres as (cid' & secret' & status & body & data & a' & r' & c1 & c2 & _ & _
                    & _ & _ & _ & _ & H1 & _).
  apply encrypt_Return_inv in H1. destruct H1 as (key & Hk & _).
  destruct (Hkey key Hk).
Qed.

Lemma login_without_a_key_spends_the_code_witness :
  let crypto := Sample.library in
  let host := Example.unkeyed in
  let w := Sample.start in
  let o := loginWithAuthCode crypto host (new_LightspeedTokenService host) "code-1" w in
  (forall key, ~ key_of host key)
  /\ credentials host "client" "secret"
  /\ result o = Return None
  /\ requests (emitted o) = [code_body "client" "secret" "code-1"]
  /\ writes (emitted o) = []
  /\ table (after o) = table w.
Proof.
  intros crypto host w o.
  assert (Hkey : forall key, ~ key_of host key)
    by (intros key (H & _); discriminate H).
  assert (Hc : credentials host "client" "secret")
    by (repeat split; discriminate).
  split; [exact Hkey|]. split; [exact Hc|].
  exact (login_without_a_key_spends_the_code crypto host "client" "secret" "code-1" w
           Hkey Hc).
Defined.

(** ** The timers *)

Lemma startRefreshScheduler_in_step t : in_step t -> in_step (fst (startRefreshScheduler t)).
Proof.
  unfold in_step, startRefreshScheduler.
  destruct (refreshTask t) as [r|] eqn:Hr; cbn [fst]; [rewrite Hr; auto|].
  cbn [refreshTask healthCheckTask ticking made ticket].
  destruct (healthCheckTask t) as [h|].
  - intros (Ht & Hh & Hlt). rewrite Ht.
    split; [left; reflexivity|]. split; [split; reflexivity|]. split; [exact Hh|].
    cbn [ticket]. lia.
  - intros ->. repeat split; auto.
Qed.

Lemma startHealthCheckScheduler_in_step t :
  in_step t -> in_step (fst (startHealthCheckScheduler t)).
Proof.
  unfold in_step, startHealthCheckScheduler.
  destruct (healthCheckTask t) as [h|] eqn:Hh; cbn [fst]; [rewrite Hh; auto|].
  cbn [refreshTask healthCheckTask ticking made ticket].
  destruct (refreshTask t) as [r|].
  - intros (Ht & Hr & Hlt). rewrite Ht.
    split; [right; reflexivity|]. split; [exact Hr|]. split; [split; reflexivity|].
    cbn [ticket]. lia.
  - intros ->. repeat split; auto.
Qed.

Lemma stopRefreshScheduler_in_step t : in_step t -> in_step (fst (stopRefreshScheduler t)).
Proof.
  unfold in_step, stopRefreshScheduler.
  destruct (refreshTask t) as [r|] eqn:Hr; cbn [fst]; [|rewrite Hr; auto].
  cbn [refreshTask healthCheckTask ticking made ticket]. unfold stop_task.
  destruct (healthCheckTask t) as [h|].
  - intros (Ht & Hjr & Hjh & Hlr & Hlh & Hne).
    apply Nat.eqb_neq in Hne. assert (Hne' : (ticket h =? ticket r)%nat = false)
      by (rewrite Nat.eqb_sym; exact Hne).
    destruct Ht as [-> | ->]; cbn [filter]; rewrite Nat.eqb_refl, Hne'; cbn [negb];
      (split; [reflexivity | split; assumption]).
  - intros (-> & _). cbn [filter]. rewrite Nat.eqb_refl. reflexivity.
Qed.

Lemma stopHealthCheckScheduler_in_step t :
  in_step t -> in_step (fst (stopHealthCheckScheduler t)).
Proof.
  unfold in_step, stopHealthCheckScheduler.
  destruct (healthCheckTask t) as [h|] eqn:Hh; cbn [fst].
  2:{ rewrite Hh. auto. }
  cbn [refreshTask healthCheckTask ticking made ticket]. unfold stop_task.
  destruct (refreshTask t) as [r|].
  - intros (Ht & Hjr & Hjh & Hlr & Hlh & Hne).
    apply Nat.eqb_neq in Hne.
    destruct Ht as [-> | ->]; cbn [filter]; rewrite Nat.eqb_refl, Hne; cbn [negb];
      (split; [reflexivity | split; assumption]).
  - intros (-> & _). cbn [filter]. rewrite Nat.eqb_refl. reflexivity.
Qed.

Lemma call_in_step c t : in_step t -> in_step (fst (call c t)).
Proof.
  intros H. destruct c; cbn [call].
  - now apply startRefreshScheduler_in_step.
  - now apply startHealthCheckScheduler_in_step.
  - unfold startAll. pose proof (startRefreshScheduler_in_step t H) as H1.
    destruct (startRefreshScheduler t) as [t1 ev1]. cbn [fst] in H1.
    pose proof (startHealthCheckScheduler_in_step t1 H1) as H2.
    destruct (startHealthCheckScheduler t1) as [t2 ev2]. exact H2.
  - now apply stopRefreshScheduler_in_step.
  - now apply stopHealthCheckScheduler_in_step.
  - unfold stopAll. pose proof (stopRefreshScheduler_in_step t H) as H1.
    destruct (stopRefreshScheduler t) as [t1 ev1]. cbn [fst] in H1.
    pose proof (stopHealthCheckScheduler_in_step t1 H1) as H2.
    destruct (stopHealthCheckScheduler t1) as [t2 ev2]. exact H2.
Qed.

Lemma calls_in_step cs t : in_step t -> in_step (calls cs t).
Proof.
  revert t. induction cs as [|c cs IH]; intros t H; [exact H|].
  cbn [calls]. apply IH. now apply call_in_step.
Qed.

Lemma in_step_ticking t :
  in_step t ->
  ticking_for RefreshJob t = match refreshTask t with Some task => [task] | None => [] end
  /\ ticking_for HealthJob t
     = match healthCheckTask t with Some task => [task] | None => [] end.
Proof.
  unfold in_step, ticking_for.
  destruct (refreshTask t) as [r|], (healthCheckTask t) as [h|].
  - intros (Ht & (Hjr & _) & (Hjh & _) & _).
    destruct Ht as [-> | ->]; cbn [filter]; rewrite Hjr, Hjh; split; reflexivity.
  - intros (-> & (Hjr & _) & _). cbn [filter]. rewrite Hjr. split; reflexivity.
  - intros (-> & (Hjh & _) & _). cbn [filter]. rewrite Hjh. split; reflexivity.
  - intros ->. split; reflexivity.
Qed.

(** X18.  Whatever calls are made on the timers of a new scheduler, in
    whatever order: at most one task is started for each of the two
    jobs, and it is the one the scheduler's field holds;
    [getSchedulerStatus] reports a scheduler as running exactly when
    its task is started; the refresh task fires every 5 minutes and
    the health check at minute 0 of every hour; and no other task is
    started. *)
Theorem timers_never_double_up :
  forall cs : list TimerCall,
    let this := calls cs no_timers in
    let started j := ticking_for j this in
    started RefreshJob
    = match refreshTask this with Some task => [task] | None => [] end
    /\ started HealthJob
       = match healthCheckTask this with Some task => [task] | None => [] end
    /\ getSchedulerStatus this
       = (match started RefreshJob with [] => false | _ => true end,
          match started HealthJob with [] => false | _ => true end)
    /\ (forall task, In task (started RefreshJob) -> expression task = "*/5 * * * *")
    /\ (forall task, In task (started HealthJob) -> expression task = "0 * * * *")
    /\ (forall task, In task (ticking this) ->
        In task (started RefreshJob) \/ In task (started HealthJob)).
Proof.
  intros cs this started.
  assert (H : in_step this) by (apply calls_in_step; reflexivity).
  destruct (in_step_ticking this H) as (H1 & H2). subst started. cbv beta.
  rewrite H1, H2. unfold getSchedulerStatus. unfold in_step in H.
  destruct (refreshTask this) as [r|], (healthCheckTask this) as [h|].
  - destruct H as (Ht & (_ & Hr) & (_ & Hh) & _). repeat split; auto.
    + intros task [<-|[]]. exact Hr.
    + intros task [<-|[]]. exact Hh.
    + destruct Ht as [-> | ->]; cbn; tauto.
  - destruct H as (-> & (_ & Hr) & _). repeat split; auto.
    + intros task [<-|[]]. exact Hr.
    + intros task [].
  - destruct H as (-> & (_ & Hh) & _). repeat split; auto.
    + intros task [].
    + intros task [<-|[]]. exact Hh.
  - rewrite H. repeat split; auto; intros task [].
Qed.

(** ** Starting the server *)

(** X19.  [startTokenService] returns with both schedulers running,
    whatever the timers were; it leaves the world as it was, posts
    nothing and writes nothing, also when the stored token has
    expired; it prints the warning that no tokens are configured
    exactly when the table is empty, and runs the one-time health
    check exactly when it is not. *)
Theorem server_start_only_reads :
  forall host timers w,
    let o := startTokenService host timers w in
    let warning := [Text "⚠️  WARNING: No tokens configured!"] in
    let checked := [Text "🏥 Running one-time health check..."] in
    result o = Return (fst (startAll timers))
    /\ getSchedulerStatus (fst (startAll timers)) = (true, true)
    /\ after o = w
    /\ requests (emitted o) = []
    /\ writes (emitted o) = []
    /\ (In warning (console (emitted o)) <-> table w = [])
    /\ (In checked (console (emitted o)) <-> table w <> []).
Proof.
  intros host timers w o warning checked. subst o warning checked.
  unfold startTokenService, runOneTimeHealthCheck, performHealthCheck. run_m.
  unfold on_timers. rewrite !getTokenStatus_eq. cbn [result after emitted app].
  unfold startAll, startRefreshScheduler, startHealthCheckScheduler, getSchedulerStatus.
  destruct (table w) as [|tokens rest] eqn:Htable; cbn [hd_error option_map].
  - destruct (refreshTask timers) as [r|] eqn:Hr;
      destruct (healthCheckTask timers) as [h|] eqn:Hh;
      cbn [fst snd refreshTask healthCheckTask app];
      rewrite ?Hr, ?Hh; cbn [fst snd refreshTask healthCheckTask app];
      rewrite ?Hr, ?Hh; cbn [fst snd refreshTask healthCheckTask app result after emitted];
      (repeat split; try reflexivity; try tauto; try discriminate;
       try (intros _; cbn; tauto);
       try (cbn; intros H; exfalso; intuition discriminate)).
  - cbn [result after emitted app]. rewrite getTokenStatus_eq, Htable.
    cbn [hd_error option_map result after emitted app].
    destruct (_ && _); destruct (negb _);
      destruct (refreshTask timers) as [r|] eqn:Hr;
      destruct (healthCheckTask timers) as [h|] eqn:Hh;
      cbn [fst snd refreshTask healthCheckTask app];
      rewrite ?Hr, ?Hh; cbn [fst snd refreshTask healthCheckTask app];
      rewrite ?Hr, ?Hh; cbn [fst snd refreshTask healthCheckTask app result after emitted];
      (repeat split; try reflexivity; try tauto; try discriminate;
       try (intros _; cbn; tauto);
       try (cbn; intros H; exfalso; intuition discriminate)).
Qed.

(** ** What [cliRefresh] posts *)

(** X20.  With client credentials and a first row, whether or not the
    row needs a refresh: [cliRefresh] posts exactly one request, and
    that carries what the stored refresh token decrypts to; when the
    stored text does not decrypt, it posts nothing, leaves the world,
    and answers with the failure that was thrown. *)
Theorem cliRefresh_sends_the_decrypted_token :
  forall crypto host this cid secret w row rest,
    credentials host cid secret ->
    table w = row :: rest ->
    let o := cliRefresh crypto host this w in
    match decrypt crypto this (refreshToken row) with
    | Return sent => requests (emitted o) = [refresh_body cid secret sent]
    | Throw e =>
        o = Ran (Return (Cli.failure (Cli.Because "Refresh failed: " e))) w
              [console_log [Text "🔄 Refreshing tokens..."]]
    end.
Proof.
  intros crypto host this cid secret w row rest Hc Htable o. subst o.
  unfold cliRefresh. run_m. rewrite Htable. cbn [hd_error].
  destruct (decrypt crypto this (refreshToken row)) as [sent|e]; [|reflexivity].
  pose proof (refreshTokens_requests crypto host this cid secret sent w Hc) as Hreq.
  destruct (refreshTokens crypto host this sent w) as [[[new|]|e] w1 ev1];
    cbn [emitted] in Hreq; try rewrite getTokenStatus_eq;
    cbn [result after emitted ret app requests]; rewrite ?requests_app, Hreq; reflexivity.
Qed.

Lemma cliRefresh_sends_the_decrypted_token_witness :
  let crypto := Sample.library in
  let host := Sample.host_with Sample.rotating in
  let this := new_LightspeedTokenService host in
  let w := Sample.configured in
  let row := Example.stale_row in
  let o := cliRefresh crypto host this w in
  credentials host "client" "secret"
  /\ table w = [row]
  /\ match decrypt crypto this (refreshToken row) with
     | Return sent => requests (emitted o) = [refresh_body "client" "secret" sent]
     | Throw e =>
         o = Ran (Return (Cli.failure (Cli.Because "Refresh failed: " e))) w
               [console_log [Text "🔄 Refreshing tokens..."]]
     end.
Proof.
  intros crypto host this w row o.
  assert (H : table w = [row]) by (vm_compute; reflexivity).
  split; [exact (sample_credentials Sample.rotating)|]. split; [exact H|].
  exact (cliRefresh_sends_the_decrypted_token crypto host this "client" "secret" w row []
           (sample_credentials Sample.rotating) H).
Defined.

(** ** Rows the service writes have an expiry date *)

Lemma dated_same_table w w' : table w' = table w -> dated w -> dated w'.
Proof. unfold dated. now intros ->. Qed.

Lemma dated_app w w' row e :
  table w' = (table w ++ [row])%list -> expiresAt row = Some e -> dated w -> dated w'.
Proof.
  unfold dated. intros -> He H. apply Forall_app. split; [exact H|].
  constructor; [eauto | constructor].
Qed.

Lemma refreshTokens_dated crypto host this text w :
  dated w -> dated (after (refreshTokens crypto host this text w)).
Proof.
  intros Hd. destruct (refreshTokens_spec crypto host this text w) as (_ & _ & _ & Hs).
  destruct (result (refreshTokens crypto host this text w)) as [[row|]|e];
    [| |contradiction].
  - destruct Hs as (cid & secret & status & body & data & a' & r' & n' & c1 & c2
                    & _ & _ & _ & _ & _ & _ & _ & _ & Hrow).
    unfold dated in *. destruct (table w) as [|old rest].
    + destruct Hrow as (-> & ->). constructor; [cbn; eauto | constructor].
    + destruct Hrow as (-> & ->). inversion Hd; subst.
      constructor; [cbn; eauto | assumption].
  - destruct Hs as (Htab & _). now apply (dated_same_table w).
Qed.

Lemma getValidAccessToken_dated crypto host this w :
  dated w -> dated (after (getValidAccessToken crypto host this w)).
Proof.
  intros Hd. unfold getValidAccessToken. run_m.
  destruct (hd_error (table w)) as [tokens|]; [|exact Hd].
  rewrite needsRefresh_eq. cbn [result after emitted app].
  destruct (due this tokens (clock w)).
  - destruct (decrypt crypto this (refreshToken tokens)) as [plain|e]; [|exact Hd].
    pose proof (refreshTokens_dated crypto host this plain w Hd) as H.
    destruct (refreshTokens crypto host this plain w) as [[[row|]|e] w1 ev1];
      cbn [after] in H |- *; [|exact H|exact H].
    destruct (decrypt crypto this (accessToken row)); exact H.
  - destruct (decrypt crypto this (accessToken tokens)); exact Hd.
Qed.

Lemma checkAndRefreshTokens_dated crypto host this w :
  dated w -> dated (after (checkAndRefreshTokens crypto host this w)).
Proof.
  intros Hd. unfold checkAndRefreshTokens. run_m.
  cbv [get_lastTokenCheckHadTokens set_lastTokenCheckHadTokens].
  destruct (hd_error (table w)) as [tokens|].
  2:{ destruct (lastTokenCheckHadTokens w); exact Hd. }
  destruct (lastTokenCheckHadTokens w); cbn [negb]; rewrite needsRefresh_eq;
    (destruct (due _ _ _); [|exact Hd]);
    match goal with
    | |- context [refreshTokens ?c ?h ?t ?r ?w0] =>
        let H := fresh "H" in
        pose proof (refreshTokens_dated c h t r w0 Hd) as H;
        destruct (refreshTokens c h t r w0) as [[[row|]|e] w1 ev1];
        cbn [after] in H
    end;
    rewrite ?getTokenStatus_eq; try destruct (hd_error (table w1)); exact H.
Qed.

Lemma loginWithAuthCode_dated crypto host this authCode w :
  dated w -> dated (after (loginWithAuthCode crypto host this authCode w)).
Proof.
  intros Hd. destruct (loginWithAuthCode_spec crypto host this authCode w) as (_ & _ & Hs).
  destruct (result (loginWithAuthCode crypto host this authCode w)) as [[row|]|e];
    [| |contradiction].
  - destruct Hs as (cid & secret & status & body & data & a' & r' & c1 & c2 & _ & _
                    & _ & _ & _ & _ & _ & _ & Hrow & Htab & _).
    eapply dated_app; [exact Htab | rewrite Hrow; reflexivity | exact Hd].
  - destruct Hs as (Htab & _). now apply (dated_same_table w).
Qed.

Lemma setTokensManually_dated crypto this a r m w :
  dated w -> dated (after (setTokensManually crypto this a r m w)).
Proof.
  intros Hd. unfold setTokensManually.
  destruct (blank a || blank r); [exact Hd|]. run_m.
  match goal with
  | |- context [insertTokens ?c ?t ?x ?y ?z w] =>
      pose proof (insertTokens_spec c t x y z w) as Hs; cbv zeta in Hs;
      destruct (insertTokens c t x y z w) as [[row|e] w1 ev2]
  end; cbn [result after emitted] in Hs |- *.
  - destruct Hs as (_ & _ & a' & r' & n' & c1 & c2 & _ & _ & _ & _ & _ & Hrow & Htab & _).
    eapply dated_app; [exact Htab | rewrite Hrow; reflexivity | exact Hd].
  - destruct Hs as (_ & _ & Htab & _). now apply (dated_same_table w).
Qed.

Lemma run_dated crypto host op w : dated w -> dated (after (run crypto host op w)).
Proof.
  intros Hd. destruct op as [authCode | a r m | refreshToken | | | | | | | ms];
    cbn [run]; unfold forget, bind.
  - pose proof (loginWithAuthCode_dated crypto host (new_LightspeedTokenService host)
                  authCode w Hd) as H.
    destruct (loginWithAuthCode _ _ _ _ w) as [[x|e] w1 ev]; exact H.
  - pose proof (setTokensManually_dated crypto (new_LightspeedTokenService host)
                  a r m w Hd) as H.
    destruct (setTokensManually _ _ _ _ _ w) as [[x|e] w1 ev]; exact H.
  - pose proof (refreshTokens_dated crypto host (new_LightspeedTokenService host)
                  refreshToken w Hd) as H.
    destruct (refreshTokens _ _ _ _ w) as [[x|e] w1 ev]; exact H.
  - pose proof (getValidAccessToken_dated crypto host (new_LightspeedTokenService host)
                  w Hd) as H.
    destruct (getValidAccessToken _ _ _ w) as [[x|e] w1 ev]; exact H.
  - now apply checkAndRefreshTokens_dated.
  - rewrite performHealthCheck_kept. exact Hd.
  - rewrite getTokenStatus_eq. exact Hd.
  - exact Hd.
  - constructor.
  - exact Hd.
Qed.

(** X21.  In any world the system can reach, every row has an expiry
    date; so a status [getTokenStatus] returns has one, is valid
    exactly while the clock is before it, and needs a refresh exactly
    from 600000 milliseconds before it. *)
Theorem reachable_rows_have_an_expiry :
  forall crypto w,
    reachable crypto w ->
    dated w
    /\ forall host,
        match result (getTokenStatus (new_LightspeedTokenService host) w) with
        | Return (Some status) =>
            exists e,
              TokenStatus.expiresAt status = Some e
              /\ TokenStatus.isValid status = (clock w <? e)
              /\ TokenStatus.needsRefresh status = (e - 600000 <=? clock w)
        | Return None => table w = []
        | Throw _ => False
        end.
Proof.
  intros crypto w Hr.
  assert (Hd : dated w).
  { induction Hr as [now random | w host op _ IH]; [constructor|].
    now apply run_dated. }
  split; [exact Hd|]. intros host. rewrite getTokenStatus_eq. cbn [result].
  unfold dated in Hd. destruct (table w) as [|row rest]; [reflexivity|].
  cbn [hd_error option_map]. inversion Hd as [|x l (e & He) _]; subst.
  exists e. unfold status_of, due. cbn [TokenStatus.expiresAt TokenStatus.isValid
                                        TokenStatus.needsRefresh].
  rewrite He. repeat split.
Qed.

Lemma reachable_rows_have_an_expiry_witness :
  reachable Sample.library Sample.stale
  /\ dated Sample.stale
  /\ forall host,
      match result (getTokenStatus (new_LightspeedTokenService host) Sample.stale) with
      | Return (Some status) =>
          exists e,
            TokenStatus.expiresAt status = Some e
            /\ TokenStatus.isValid status = (clock Sample.stale <? e)
            /\ TokenStatus.needsRefresh status = (e - 600000 <=? clock Sample.stale)
      | Return None => table Sample.stale = []
      | Throw _ => False
      end.
Proof.
  split; [exact sample_stale_reachable|].
  exact (reachable_rows_have_an_expiry Sample.library Sample.stale sample_stale_reachable).
Defined.
